(** * ts_anomaly_detection: loader, metrics and anomaly detector

    A shallow embedding of [src/data/loader.py], [src/analysis/metrics.py],
    [src/analysis/anomaly.py] and [src/analysis/acf.py].

    Conventions of the embedding.
    - A timestamp of minute granularity is the number of minutes since the
      epoch, an integer.
    - An [int64] column is a list of [Z]; where numpy wraps around
      ([np.diff]) the wrap-around is written out.
    - A [float64] value is either one of the IEEE special values
      (+inf, -inf, NaN) or a finite number; arithmetic on finite numbers is
      exact real arithmetic (no rounding, no overflow), the special values
      follow IEEE 754.
    - A Python exception is a value of [result]. *)

From Stdlib Require Import ZArith List String Ascii Bool Lia Permutation.
From Stdlib Require Import Sorted.
From Stdlib Require Import Reals Lra.
Import ListNotations.

Open Scope Z_scope.

(** ** Exceptions *)

Inductive exn : Type :=
| ValueError (msg : string).

Inductive result (A : Type) : Type :=
| Ok (a : A)
| Raise (e : exn).

Arguments Ok {A} a.
Arguments Raise {A} e.

(** ** src/data/loader.py *)

Module Loader.

(** One row of the frame with columns MINUTO, CD_OPR, QTD, after the type
    conversions of lines 62-70: MINUTO is a timestamp, CD_OPR a string and
    QTD an integer. *)
Record Linha : Type := mkLinha { MINUTO : Z; CD_OPR : string; QTD : Z }.

Definition DataFrame : Type := list Linha.

Definition Chave : Type := (Z * string)%type.

Definition chave (r : Linha) : Chave := (MINUTO r, CD_OPR r).

Definition chave_eqb (a b : Chave) : bool :=
  (fst a =? fst b) && String.eqb (snd a) (snd b).

(** [Series.unique()]: the distinct values, in order of first appearance. *)
Fixpoint unique (l : list string) : list string :=
  match l with
  | [] => []
  | x :: t => x :: filter (fun y => negb (String.eqb x y)) (unique t)
  end.

(** [Series.min()] and [Series.max()] of a non-empty column; the default is
    never used by [extrair_dados], which returns early on an empty frame. *)
Definition serie_min (l : list Z) : Z :=
  match l with
  | [] => 0
  | x :: t => fold_left Z.min t x
  end.

Definition serie_max (l : list Z) : Z :=
  match l with
  | [] => 0
  | x :: t => fold_left Z.max t x
  end.

(** [pd.date_range(start, end, freq='T')]: every minute from [start] to
    [fim], both included; empty when [fim < start]. *)
Definition date_range (start fim : Z) : list Z :=
  map (fun i => start + Z.of_nat i) (seq 0 (Z.to_nat (fim - start + 1))).

(** [pd.MultiIndex.from_product([a, b])]: the first level varies slowest. *)
Definition from_product (a : list Z) (b : list string) : list Chave :=
  list_prod a b.

(** [df.set_index(['MINUTO', 'CD_OPR'])]: the remaining column QTD, indexed
    by the pair. *)
Definition set_index (df : DataFrame) : list (Chave * Z) :=
  map (fun r => (chave r, QTD r)) df.

Fixpoint is_unique (ks : list Chave) : bool :=
  match ks with
  | [] => true
  | k :: t => negb (existsb (chave_eqb k) t) && is_unique t
  end.

Fixpoint get_loc (k : Chave) (idx : list (Chave * Z)) : option Z :=
  match idx with
  | [] => None
  | (k', v) :: t => if chave_eqb k k' then Some v else get_loc k t
  end.

(** [DataFrame.reindex(novo_indice)] on a MultiIndex: pandas refuses an
    index with duplicate entries ([ValueError]); otherwise each target label
    takes the row of that label, or a missing value (NaN, here [None]). *)
Definition reindex (idx : list (Chave * Z)) (novo : list Chave)
  : result (list (Chave * option Z)) :=
  if is_unique (map fst idx)
  then Ok (map (fun k => (k, get_loc k idx)) novo)
  else Raise (ValueError "cannot handle a non-unique multi-index!"%string).

(** [.fillna(0).astype(int)] *)
Definition fillna0 (v : option Z) : Z :=
  match v with
  | Some q => q
  | None => 0
  end.

Definition reset_index (rows : list (Chave * Z)) : DataFrame :=
  map (fun kv => mkLinha (fst (fst kv)) (snd (fst kv)) (snd kv)) rows.

(** [extrair_dados], from the typed frame [df] of line 58 onwards
    (lines 19-73 read the file, select and split the lines and convert the
    three columns; an empty selection returns the empty frame). *)
Definition extrair_dados (df : DataFrame) : result DataFrame :=
  match df with
  | [] => Ok []
  | _ :: _ =>
      let cd_opr_unicos := unique (map CD_OPR df) in
      let min_time := serie_min (map MINUTO df) in
      let max_time := serie_max (map MINUTO df) in
      let todos_minutos := date_range min_time max_time in
      let novo_indice := from_product todos_minutos cd_opr_unicos in
      let df_indexed := set_index df in
      match reindex df_indexed novo_indice with
      | Raise e => Raise e
      | Ok df_completo =>
          let df_completo :=
            map (fun kv => (fst kv, fillna0 (snd kv))) df_completo in
          Ok (reset_index df_completo)
      end
  end.

(** The frame [extrair_dados] returns when the reindexing succeeds, written
    out row by row. *)
Definition grade (df : DataFrame) : DataFrame :=
  map (fun k => mkLinha (fst k) (snd k) (fillna0 (get_loc k (set_index df))))
      (from_product
         (date_range (serie_min (map MINUTO df)) (serie_max (map MINUTO df)))
         (unique (map CD_OPR df))).

End Loader.

(** ** float64 values *)

Module Float.

Inductive float : Type :=
| Fin (r : R)
| PInf
| NInf
| NaN.

Definition Reqb (x y : R) : bool := if Req_dec_T x y then true else false.
Definition Rltb (x y : R) : bool := if Rlt_dec x y then true else false.

(** Conversion of an [int64] to [float64]. *)
Definition of_int (z : Z) : float := Fin (IZR z).

Definition of_nat (n : nat) : float := Fin (INR n).

Definition zero : float := Fin 0%R.

Definition inf_of_sign (neg : bool) : float := if neg then NInf else PInf.

Definition fopp (x : float) : float :=
  match x with
  | Fin r => Fin (- r)%R
  | PInf => NInf
  | NInf => PInf
  | NaN => NaN
  end.

Definition fadd (x y : float) : float :=
  match x, y with
  | NaN, _ | _, NaN => NaN
  | Fin a, Fin b => Fin (a + b)%R
  | PInf, NInf | NInf, PInf => NaN
  | PInf, _ | _, PInf => PInf
  | NInf, _ | _, NInf => NInf
  end.

Definition fsub (x y : float) : float := fadd x (fopp y).

(** An infinity of sign [neg] times [y]: inf * 0 is NaN. *)
Definition mul_inf (neg : bool) (y : float) : float :=
  match y with
  | NaN => NaN
  | PInf => inf_of_sign neg
  | NInf => inf_of_sign (negb neg)
  | Fin b =>
      if Rltb 0 b then inf_of_sign neg
      else if Rltb b 0 then inf_of_sign (negb neg)
      else NaN
  end.

Definition fmul (x y : float) : float :=
  match x with
  | NaN => NaN
  | PInf => mul_inf false y
  | NInf => mul_inf true y
  | Fin a =>
      match y with
      | Fin b => Fin (a * b)%R
      | NaN => NaN
      | PInf => mul_inf false x
      | NInf => mul_inf true x
      end
  end.

(** numpy's true division: a division by zero is not an exception, it gives
    an infinity or NaN. *)
Definition fdiv (x y : float) : float :=
  match x, y with
  | NaN, _ | _, NaN => NaN
  | Fin a, Fin b =>
      if Reqb b 0 then
        if Rltb 0 a then PInf else if Rltb a 0 then NInf else NaN
      else Fin (a / b)%R
  | Fin _, _ => Fin 0%R
  | PInf, Fin b => if Rltb b 0 then NInf else PInf
  | NInf, Fin b => if Rltb b 0 then PInf else NInf
  | _, _ => NaN
  end.

Definition fsqrt (x : float) : float :=
  match x with
  | Fin r => if Rltb r 0 then NaN else Fin (sqrt r)
  | PInf => PInf
  | NInf => NaN
  | NaN => NaN
  end.

Definition fabs (x : float) : float :=
  match x with
  | Fin r => Fin (Rabs r)
  | PInf | NInf => PInf
  | NaN => NaN
  end.

(** Comparisons: every comparison with NaN is false. *)
Definition feqb (x y : float) : bool :=
  match x, y with
  | Fin a, Fin b => Reqb a b
  | PInf, PInf | NInf, NInf => true
  | _, _ => false
  end.

Definition fltb (x y : float) : bool :=
  match x, y with
  | NaN, _ | _, NaN => false
  | Fin a, Fin b => Rltb a b
  | NInf, NInf => false
  | NInf, _ => true
  | _, NInf => false
  | PInf, _ => false
  | _, PInf => true
  end.

Definition fleb (x y : float) : bool := fltb x y || feqb x y.

Definition fgtb (x y : float) : bool := fltb y x.

Definition isnan (x : float) : bool :=
  match x with
  | NaN => true
  | _ => false
  end.

Definition isinf (x : float) : bool :=
  match x with
  | PInf | NInf => true
  | _ => false
  end.

Definition isfinite (x : float) : bool :=
  match x with
  | Fin _ => true
  | _ => false
  end.

End Float.

(** ** numpy, pandas and statsmodels primitives used by the analysis *)

Module Np.
Import Float.

(** Python's [a[:k]] and [a[1:]]. *)
Definition slice_to {A : Type} (a : list A) (k : Z) : list A :=
  if 0 <=? k then firstn (Z.to_nat k) a
  else firstn (Z.to_nat (Z.of_nat (List.length a) + k)) a.

Definition slice_from1 {A : Type} (a : list A) : list A := tl a.

Definition sum (a : list float) : float := fold_left fadd a zero.

(** [ndarray.mean()]: the sum divided by the number of elements; NaN for an
    empty array. *)
Definition mean (a : list float) : float :=
  fdiv (sum a) (of_nat (List.length a)).

(** [ndarray.std()] with the default [ddof = 0]. *)
Definition var (a : list float) : float :=
  let arrmean := mean a in
  let x := map (fun v => fsub v arrmean) a in
  let x := map (fun v => fmul v v) x in
  fdiv (sum x) (of_nat (List.length a)).

Definition std (a : list float) : float := fsqrt (var a).

(** Two's complement wrap-around of [int64] arithmetic. *)
Definition wrap64 (z : Z) : Z :=
  (z + 2 ^ 63) mod 2 ^ 64 - 2 ^ 63.

(** [np.diff] of an [int64] array. *)
Fixpoint diff (a : list Z) : list Z :=
  match a with
  | [] => []
  | x :: t =>
      match t with
      | [] => []
      | y :: _ => wrap64 (y - x) :: diff t
      end
  end.

Definition all (a : list bool) : bool := forallb (fun b => b) a.

Definition abs (a : list float) : list float := map fabs a.

(** [np.maximum]: NaN propagates. *)
Definition maximum (x y : float) : float :=
  if isnan x then x
  else if isnan y then y
  else if fltb x y then y else x.

(** [np.max] of a non-empty array (numpy raises on an empty one; every call
    below is guarded by a length test). *)
Definition max (a : list float) : float :=
  match a with
  | [] => NaN
  | x :: t => fold_left maximum t x
  end.

(** [np.argmax]: the first index of the maximum; a NaN counts as the
    maximum and stops the scan. *)
Fixpoint argmax_loop (mp : float) (max_ind i : nat) (a : list float) : nat :=
  match a with
  | [] => max_ind
  | x :: t =>
      if isnan mp then max_ind
      else if negb (fleb x mp) then argmax_loop x i (S i) t
      else argmax_loop mp max_ind (S i) t
  end.

Definition argmax (a : list float) : nat :=
  match a with
  | [] => 0%nat
  | x :: t => argmax_loop x 0%nat 1%nat t
  end.

(** Insertion into a list sorted by [le], after the elements it is not
    below (stable). *)
Fixpoint insert {A : Type} (le : A -> A -> bool) (x : A) (l : list A)
  : list A :=
  match l with
  | [] => [x]
  | y :: t => if le y x then y :: insert le x t else x :: y :: t
  end.

Fixpoint sort {A : Type} (le : A -> A -> bool) (l : list A) : list A :=
  match l with
  | [] => []
  | x :: t => insert le x (sort le t)
  end.

(** [np.median]: NaN if any element is NaN or the array is empty; else the
    middle element of the sorted array, or the mean of the two middle ones. *)
Definition median (a : list float) : float :=
  if existsb isnan a then NaN
  else
    let s := sort fleb a in
    let n := List.length s in
    match n with
    | O => NaN
    | _ =>
        if Nat.even n
        then mean [nth (n / 2 - 1)%nat s NaN; nth (n / 2)%nat s NaN]
        else nth (n / 2)%nat s NaN
    end.

(** [statsmodels.tsa.stattools.acovf(x, adjusted=False, demean=True,
    fft=False)]: for every lag [k] below the length, the sum of the products
    of the demeaned series with itself shifted by [k], divided by the
    length. *)
Definition dot (a b : list float) : float :=
  sum (map (fun p => fmul (fst p) (snd p)) (combine a b)).

Definition acovf (x : list float) : list float :=
  let xo := map (fun v => fsub v (mean x)) x in
  let n := List.length x in
  map (fun k => fdiv (dot (skipn k xo) xo) (of_nat n)) (seq 0 n).

(** [statsmodels.tsa.stattools.acf(x, nlags=nlags, fft=False)]:
    [avf[:nlags + 1] / avf[0]]. *)
Definition acf (x : list float) (nlags : Z) : list float :=
  let avf := acovf x in
  map (fun v => fdiv v (hd NaN avf)) (slice_to avf (nlags + 1)).

(** [norm.ppf(3/4)], the constant that makes the MAD consistent with the
    standard deviation of a normal sample. *)
Definition mad_c : R := (6744897501960817 / 10000000000000000)%R.

(** [statsmodels.robust.mad(a)] with its defaults
    ([c = norm.ppf(3/4)], [center = np.median]). *)
Definition robust_mad (a : list float) : float :=
  match a with
  | [] => NaN
  | _ :: _ =>
      let center := median a in
      let err := map (fun v => fdiv (fabs (fsub v center)) (Fin mad_c)) a in
      median err
  end.

End Np.

(** ** src/analysis/metrics.py *)

Module Metrics.
Import Float.

(** The series handed to the metrics is [grupo['QTD'].values], an [int64]
    array. *)
Definition Serie : Type := list Z.

Definition to_float (serie : Serie) : list float := map of_int serie.

Definition calcula_cv (serie : Serie) : float :=
  let mean := Np.mean (to_float serie) in
  let std := Np.std (to_float serie) in
  if feqb mean zero then PInf
  else fmul (fdiv std mean) (Fin 100%R).

(** The differenced series is constant: [np.all(diff_serie == diff_serie[0])]. *)
Definition diff_constante (diff_serie : list Z) : bool :=
  Np.all (map (fun d => d =? hd 0 diff_serie) diff_serie).

(** The [try] block of lines 35-48; the model of [acf] is total, so the
    [except] branch of lines 50-52 is not reached. *)
Definition calcula_autocorr_diff (serie : Serie) (nlags : Z) : float * Z :=
  if (List.length serie <? 2)%nat then (zero, 0)
  else
    let diff_serie := Np.diff serie in
    if (List.length diff_serie <? 2)%nat || diff_constante diff_serie
    then (zero, 0)
    else
      let acf_diff :=
        Np.acf (to_float diff_serie)
               (Z.min nlags (Z.of_nat (List.length diff_serie) - 1)) in
      let acf_abs := Np.abs (Np.slice_from1 acf_diff) in
      if (List.length acf_abs =? 0)%nat then (zero, 0)
      else
        let max_value := Np.max acf_abs in
        let max_lag := Z.of_nat (Np.argmax acf_abs) + 1 in
        (max_value, max_lag).

Definition calcula_mad (serie : list float) : float := Np.robust_mad serie.

End Metrics.

(** ** src/analysis/anomaly.py *)

Module Anomaly.
Import Float.

(** One row of the metric table. The columns [score_anomaly] and [anormal]
    are added by [detectar_anomalias]; [None] stands for a frame that does
    not have the column. *)
Record Metrica : Type := mkMetrica {
  CD_OPR : string;
  autocorr_max_diff : float;
  autocorr_lag : Z;
  cv : float;
  score_anomaly : option float;
  anormal : option bool
}.

Definition Metricas : Type := list Metrica.

(** [dados.sort_values(['CD_OPR', 'MINUTO'])] *)
Definition ordem_linha (a b : Loader.Linha) : bool :=
  if String.eqb (Loader.CD_OPR a) (Loader.CD_OPR b)
  then Loader.MINUTO a <=? Loader.MINUTO b
  else String.leb (Loader.CD_OPR a) (Loader.CD_OPR b).

Definition sort_values (dados : Loader.DataFrame) : Loader.DataFrame :=
  Np.sort ordem_linha dados.

(** [dados.groupby('CD_OPR')]: the groups in increasing order of the key,
    each with its rows in the order of the frame. *)
Definition groupby (dados : Loader.DataFrame)
  : list (string * Loader.DataFrame) :=
  let chaves := Np.sort String.leb (Loader.unique (map Loader.CD_OPR dados)) in
  map (fun k =>
         (k, filter (fun r => String.eqb (Loader.CD_OPR r) k) dados))
      chaves.

Definition nlags_padrao : Z := 360.

(** The body of the loop of lines 38-60 for one group: nothing is appended
    for a series shorter than 10. The metric functions of the model do not
    raise, so the [except] branch is not reached. *)
Definition metricas_do_grupo (cd_opr : string) (grupo : Loader.DataFrame)
  : list Metrica :=
  let serie_temporal := map Loader.QTD grupo in
  if (List.length serie_temporal <? 10)%nat then []
  else
    let '(autocorr_max, autocorr_lag) :=
      Metrics.calcula_autocorr_diff serie_temporal nlags_padrao in
    let cv := Metrics.calcula_cv serie_temporal in
    [mkMetrica cd_opr autocorr_max autocorr_lag cv None None].

Definition calcular_metricas_por_processo (dados : Loader.DataFrame)
  : Metricas :=
  let dados := sort_values dados in
  flat_map (fun g => metricas_do_grupo (fst g) (snd g)) (groupby dados).

(** *** detectar_anomalias

    [df_metricas] is the caller's object; the statements of lines 94-120
    change it in place. The function is therefore a state transformer: it
    takes the content of the caller's frame and returns the returned tuple
    together with the content of the caller's frame after the call. *)

(** [df['score_anomaly'] = df['cv'] * df['autocorr_max_diff']] *)
Definition set_score (df : Metricas) : Metricas :=
  map (fun r =>
         mkMetrica (CD_OPR r) (autocorr_max_diff r) (autocorr_lag r) (cv r)
                 (Some (fmul (cv r) (autocorr_max_diff r))) (anormal r))
      df.

Definition inf_to_nan (x : float) : float := if isinf x then NaN else x.

(** [df.replace([np.inf, -np.inf], np.nan, inplace=True)]: every float
    column. *)
Definition replace_inf (df : Metricas) : Metricas :=
  map (fun r =>
         mkMetrica (CD_OPR r) (inf_to_nan (autocorr_max_diff r))
                 (autocorr_lag r) (inf_to_nan (cv r))
                 (option_map inf_to_nan (score_anomaly r)) (anormal r))
      df.

Definition score_isna (r : Metrica) : bool :=
  match score_anomaly r with
  | Some x => isnan x
  | None => true
  end.

(** [df.dropna(subset=['score_anomaly'], inplace=True)] *)
Definition dropna_score (df : Metricas) : Metricas :=
  filter (fun r => negb (score_isna r)) df.

Definition score (r : Metrica) : float :=
  match score_anomaly r with
  | Some x => x
  | None => NaN
  end.

Definition coluna_score (df : Metricas) : list float := map score df.

(** [Series.median()]: missing values are skipped. *)
Definition series_median (a : list float) : float :=
  Np.median (filter (fun x => negb (isnan x)) a).

(** [df['anormal'] = ...] *)
Definition set_anormal (f : Metrica -> bool) (df : Metricas) : Metricas :=
  map (fun r =>
         mkMetrica (CD_OPR r) (autocorr_max_diff r) (autocorr_lag r) (cv r)
                 (score_anomaly r) (Some (f r)))
      df.

(** [df.sort_values('score_anomaly', ascending=False)]: a new frame. *)
Definition sort_desc (df : Metricas) : Metricas :=
  Np.sort (fun a b => fleb (score b) (score a)) df.

Record Retorno : Type := mkRetorno {
  tabela : Metricas;
  mediana : float;
  mad : float;
  limite_superior : float
}.

(** The rows of a metric table always have the columns [cv] and
    [autocorr_max_diff], so the test of line 85 is [df_metricas.empty]. *)
Definition detectar_anomalias (df_metricas : Metricas)
    (sigma_threshold : float) : Retorno * Metricas :=
  match df_metricas with
  | [] => (mkRetorno [] NaN NaN NaN, df_metricas)
  | _ :: _ =>
      let df_metricas := set_score df_metricas in
      let df_metricas := replace_inf df_metricas in
      let df_metricas := dropna_score df_metricas in
      match df_metricas with
      | [] => (mkRetorno df_metricas NaN NaN NaN, df_metricas)
      | _ :: _ =>
          let mediana := series_median (coluna_score df_metricas) in
          let mad := Metrics.calcula_mad (coluna_score df_metricas) in
          if feqb mad zero then
            let df_metricas := set_anormal (fun _ => false) df_metricas in
            let limite_superior := mediana in
            (mkRetorno (sort_desc df_metricas) mediana mad limite_superior,
             df_metricas)
          else
            let limite_superior := fadd mediana (fmul sigma_threshold mad) in
            let df_metricas :=
              set_anormal (fun r => fgtb (score r) limite_superior)
                          df_metricas in
            (mkRetorno (sort_desc df_metricas) mediana mad limite_superior,
             df_metricas)
      end
  end.

(** Vocabulary of the statements. The product [cv * autocorr_max_diff] of a
    row is a finite number, neither infinite nor NaN. *)
Definition produto (r : Metrica) : float := fmul (cv r) (autocorr_max_diff r).

Definition score_valido (r : Metrica) : bool := isfinite (produto r).

(** A metric table as [calcular_metricas_por_processo] builds it: the
    columns [score_anomaly] and [anormal] are absent. *)
Definition tabela_de_metricas (df : Metricas) : Prop :=
  forall r, In r df -> score_anomaly r = None /\ anormal r = None.

(** Lines 102-125 of [detectar_anomalias] as a function of the frame left
    by lines 94-100: the returned tuple and the final content of the caller's
    frame. *)
Definition classificar (df_metricas : Metricas) (sigma_threshold : float)
  : Retorno * Metricas :=
  match df_metricas with
  | [] => (mkRetorno df_metricas NaN NaN NaN, df_metricas)
  | _ :: _ =>
      let mediana := series_median (coluna_score df_metricas) in
      let mad := Metrics.calcula_mad (coluna_score df_metricas) in
      if feqb mad zero then
        let df_metricas := set_anormal (fun _ => false) df_metricas in
        (mkRetorno (sort_desc df_metricas) mediana mad mediana, df_metricas)
      else
        let limite_superior := fadd mediana (fmul sigma_threshold mad) in
        let df_metricas :=
          set_anormal (fun r => fgtb (score r) limite_superior) df_metricas in
        (mkRetorno (sort_desc df_metricas) mediana mad limite_superior,
         df_metricas)
  end.

(** The four metric cells of a row. *)
Definition celulas (r : Metrica) : string * float * Z * float :=
  (CD_OPR r, autocorr_max_diff r, autocorr_lag r, cv r).

End Anomaly.

(** ** Mathematical vocabulary of the statements *)

Module Mat.

Definition soma (l : list R) : R := fold_right Rplus 0%R l.

Definition reais (serie : list Z) : list R := map IZR serie.

(** Arithmetic mean, population variance and standard deviation of a
    series of integers. *)
Definition media (serie : list Z) : R :=
  (soma (reais serie) / INR (List.length serie))%R.

Definition variancia (serie : list Z) : R :=
  (soma (map (fun x => (x - media serie) * (x - media serie))%R
             (reais serie))
   / INR (List.length serie))%R.

Definition desvio_padrao (serie : list Z) : R := sqrt (variancia serie).



End Mat.

(** Sum of a column of integers. *)
Definition soma_int (l : list Z) : Z := fold_right Z.add 0 l.

(** ** Python string operations used by the loader

    A [str] is modelled by a [string] whose characters are the code points
    of the text, which are taken to be below 256. *)

Module Texto.

Open Scope string_scope.

(** [str.isspace] on one character: the code points 9-13, 28-32, 133 and
    160. *)
Definition is_space (c : ascii) : bool :=
  let n := nat_of_ascii c in
  ((9 <=? n) && (n <=? 13) || (28 <=? n) && (n <=? 32)
   || (n =? 133) || (n =? 160))%nat.

Fixpoint lstrip_se (p : ascii -> bool) (s : string) : string :=
  match s with
  | EmptyString => EmptyString
  | String c s' => if p c then lstrip_se p s' else s
  end.

Fixpoint rstrip_se (p : ascii -> bool) (s : string) : string :=
  match s with
  | EmptyString => EmptyString
  | String c s' =>
      match rstrip_se p s' with
      | EmptyString => if p c then EmptyString else String c EmptyString
      | r => String c r
      end
  end.

(** [s.strip()] *)
Definition strip (s : string) : string :=
  rstrip_se is_space (lstrip_se is_space s).

(** [s.strip(chars)] *)
Definition strip_chars (chars : string) (s : string) : string :=
  let p c := existsb (Ascii.eqb c) (list_ascii_of_string chars) in
  rstrip_se p (lstrip_se p s).

(** [s.startswith(p)] *)
Definition startswith (p s : string) : bool := String.prefix p s.

(** [s.replace(old, "")] for a non-empty [old]: the occurrences of [old]
    are removed from left to right, without overlap. [skip] counts the
    characters of the occurrence being removed that are still ahead. *)
Fixpoint remove_aux (old : string) (skip : nat) (s : string) : string :=
  match s with
  | EmptyString => EmptyString
  | String c s' =>
      match skip with
      | S k => remove_aux old k s'
      | O =>
          if String.prefix old s
          then remove_aux old (String.length old - 1) s'
          else String c (remove_aux old 0 s')
      end
  end.

Definition remove (old s : string) : string := remove_aux old 0 s.

(** [s.split(sep)] for a separator of one character. *)
Fixpoint split (sep : ascii) (s : string) : list string :=
  match s with
  | EmptyString => [EmptyString]
  | String c s' =>
      if Ascii.eqb c sep then EmptyString :: split sep s'
      else
        match split sep s' with
        | [] => [String c EmptyString]
        | h :: t => String c h :: t
        end
  end.

End Texto.

(** ** src/data/loader.py, lines 19-73: from the file to the typed frame *)

Module Leitura.

Open Scope string_scope.

Definition marcador : string := "Insert into EXPORT_TABLE".

Definition prefixo : string :=
  "Insert into EXPORT_TABLE (MINUTO,CD_OPR,QTD) values (".

(** Lines 42-48 for one selected line: [None] for a line that is skipped
    because it does not split into 3 parts. *)
Definition processa_linha (linha : string) : option (list string) :=
  let linha := Texto.remove ");" (Texto.remove prefixo (Texto.strip linha)) in
  let partes := Texto.split "," linha in
  if (List.length partes =? 3)%nat then Some partes else None.

(** Lines 38-51 *)
Fixpoint processa (dados_filtrados : list string) : list (list string) :=
  match dados_filtrados with
  | [] => []
  | linha :: t =>
      match processa_linha linha with
      | Some partes => partes :: processa t
      | None => processa t
      end
  end.

Section Conversoes.

(** [pd.to_datetime(s, format='%Y-%m-%d %H:%M')] and [int(s)] on one value:
    the minute, or the integer, or [None] where pandas raises. *)
Variable to_datetime : string -> option Z.
Variable to_int : string -> option Z.

(** Lines 62-70 on one row. *)
Definition converte_linha (partes : list string) : option Loader.Linha :=
  match partes with
  | [minuto; cd_opr; qtd] =>
      match to_datetime (Texto.strip_chars "'" minuto), to_int qtd with
      | Some m, Some q => Some (Loader.mkLinha m cd_opr q)
      | _, _ => None
      end
  | _ => None
  end.

(** Lines 60-73 on the whole frame: one value that does not convert makes
    the conversion of the column raise. *)
Fixpoint converte (linhas : list (list string)) : option Loader.DataFrame :=
  match linhas with
  | [] => Some []
  | partes :: t =>
      match converte_linha partes, converte t with
      | Some r, Some df => Some (r :: df)
      | _, _ => None
      end
  end.

(** [extrair_dados(caminho)]: [arquivo] is the list of lines that
    [readlines] returns, or [None] when the file cannot be read. Every
    early return gives the empty frame. *)
Definition extrair_dados_arquivo (arquivo : option (list string))
  : result Loader.DataFrame :=
  match arquivo with
  | None => Ok []
  | Some linhas =>
      let dados_filtrados := filter (Texto.startswith marcador) linhas in
      match dados_filtrados with
      | [] => Ok []
      | _ :: _ =>
          let dados_processados := processa dados_filtrados in
          match dados_processados with
          | [] => Ok []
          | _ :: _ =>
              match converte dados_processados with
              | None => Ok []
              | Some df => Loader.extrair_dados df
              end
          end
      end
  end.

End Conversoes.

(** The export line of one record, as section 6 of the format has it. *)
Definition formata (ts cd_opr qtd : string) : string :=
  prefixo ++ "'" ++ ts ++ "'," ++ cd_opr ++ "," ++ qtd ++ ");".

(** A field without comma and without parenthesis. *)
Definition campo_simples (s : string) : Prop :=
  forall c, In c (list_ascii_of_string s) ->
            c <> ","%char /\ c <> "("%char /\ c <> ")"%char.

(** A field without parenthesis. *)
Definition sem_parenteses (s : string) : Prop :=
  forall c, In c (list_ascii_of_string s) -> c <> "("%char /\ c <> ")"%char.

(** A field without single quote. *)
Definition sem_aspas (s : string) : Prop :=
  forall c, In c (list_ascii_of_string s) -> c <> "'"%char.

(** A string of whitespace only (the end of a line). *)
Definition em_branco (s : string) : Prop :=
  forall c, In c (list_ascii_of_string s) -> Texto.is_space c = true.

(** One record of the export as text: the timestamp, the operator, the
    count and the whitespace that ends its line. *)
Record Registro : Type := mkRegistro {
  ts : string;
  op : string;
  qtd : string;
  fim : string
}.

Definition linha_de (r : Registro) : string :=
  formata (ts r) (op r) (qtd r) ++ fim r.

Definition bem_formado (r : Registro) : Prop :=
  campo_simples (ts r) /\ sem_aspas (ts r) /\ campo_simples (op r)
  /\ campo_simples (qtd r) /\ em_branco (fim r).

(** The typed row that the conversions give for a record. *)
Definition lido (to_datetime to_int : string -> option Z)
    (r : Registro) (l : Loader.Linha) : Prop :=
  to_datetime (ts r) = Some (Loader.MINUTO l)
  /\ to_int (qtd r) = Some (Loader.QTD l)
  /\ op r = Loader.CD_OPR l.

End Leitura.

(** ** src/analysis/anomaly.py, [main] *)

Module Principal.
Import Float.

(** How a run of [main] ends: with one of its three early returns, or
    after handing the table of the detector to [to_csv]. *)
Inductive Saida : Type :=
| FalhaCarga
| SemMetricas
| FalhaDeteccao
| Salvo (ret : Anomaly.Retorno).

(** Lines 147-195, from the loaded frame on (the plotting and the printing
    are left out). *)
Definition analisar (dados : Loader.DataFrame) : Saida :=
  match dados with
  | [] => FalhaCarga
  | _ :: _ =>
      let df_metricas := Anomaly.calcular_metricas_por_processo dados in
      match df_metricas with
      | [] => SemMetricas
      | _ :: _ =>
          let ret := fst (Anomaly.detectar_anomalias df_metricas (Fin 3%R)) in
          match Anomaly.tabela ret with
          | [] => if isnan (Anomaly.mediana ret) then FalhaDeteccao
                  else Salvo ret
          | _ :: _ => Salvo ret
          end
      end
  end.

(** [main] on the typed frame of the loader: an exception of
    [extrair_dados] is not caught. *)
Definition main (df : Loader.DataFrame) : result Saida :=
  match Loader.extrair_dados df with
  | Raise e => Raise e
  | Ok dados => Ok (analisar dados)
  end.

End Principal.

(** ** src/analysis/acf.py *)

Module Acf.
Import Float.

(** [dados_filtrados.sort_values('MINUTO')] *)
Definition sort_minuto (dados : Loader.DataFrame) : Loader.DataFrame :=
  Np.sort (fun a b => Loader.MINUTO a <=? Loader.MINUTO b) dados.

(** The default of the parameter [nlags]. *)
Definition nlags_acf : Z := 40.

(** Lines 84-96: the value and the lag that line 93 prints, [None] when
    line 96 is printed instead. The model of [acf] is total, so the
    [except] branch is not reached. *)
Definition acf_original (serie_temporal : Metrics.Serie) (nlags : Z)
  : option (float * Z) :=
  let valores_acf :=
    Np.acf (Metrics.to_float serie_temporal)
           (Z.min nlags (Z.of_nat (List.length serie_temporal) - 1)) in
  if (1 <? List.length valores_acf)%nat then
    let acf_abs_orig := Np.abs (Np.slice_from1 valores_acf) in
    let max_lag_orig := Z.of_nat (Np.argmax acf_abs_orig) + 1 in
    let max_valor_orig := nth (Z.to_nat max_lag_orig) valores_acf NaN in
    Some (max_valor_orig, max_lag_orig)
  else None.

(** How a run of [analisar_acf_processo] ends: with one of its three early
    returns, or after printing the maximum of the ACF of the series and the
    one of the differenced series. *)
Inductive Resultado : Type :=
| SemCarga
| SemDados
| SerieCurta
| Relatorio (original : option (float * Z)) (diferenciada : float * Z).

(** [analisar_acf_processo], from the loaded frame on (the plotting is left
    out). *)
Definition analisar_acf_processo (cd_opr_alvo : string)
    (dados : Loader.DataFrame) (nlags : Z) : Resultado :=
  match dados with
  | [] => SemCarga
  | _ :: _ =>
      let dados_filtrados :=
        filter (fun r => String.eqb (Loader.CD_OPR r) cd_opr_alvo) dados in
      match dados_filtrados with
      | [] => SemDados
      | _ :: _ =>
          let dados_filtrados := sort_minuto dados_filtrados in
          let serie_temporal := map Loader.QTD dados_filtrados in
          if (List.length serie_temporal <? 2)%nat then SerieCurta
          else
            Relatorio (acf_original serie_temporal nlags)
                      (Metrics.calcula_autocorr_diff serie_temporal nlags)
      end
  end.

End Acf.

(** * Properties of the loader *)

Section LoaderFacts.
Import Loader.

Lemma chave_eqb_eq (a b : Chave) : chave_eqb a b = true <-> a = b.
Proof.
  destruct a as [m s], b as [m' s']; unfold chave_eqb; simpl.
  rewrite andb_true_iff, Z.eqb_eq, String.eqb_eq.
  split; [intros [-> ->]; reflexivity | intros H; inversion H; auto].
Qed.

Lemma unique_In (l : list string) (y : string) :
  In y (unique l) <-> In y l.
Proof.
  induction l as [|x t IH]; simpl; [tauto|].
  rewrite filter_In, IH, negb_true_iff, String.eqb_neq.
  destruct (string_dec x y); tauto.
Qed.

Lemma unique_NoDup (l : list string) : NoDup (unique l).
Proof.
  induction l as [|x t IH]; simpl; constructor.
  - rewrite filter_In, negb_true_iff, String.eqb_neq. tauto.
  - now apply NoDup_filter.
Qed.


Lemma fold_min_spec (t : list Z) (x : Z) :
  (fold_left Z.min t x <= x /\ forall y, In y t -> fold_left Z.min t x <= y)
  /\ In (fold_left Z.min t x) (x :: t).
Proof.
  revert x; induction t as [|y t IH]; intros x; simpl.
  - split; [split; [lia | tauto] | auto].
  - destruct (IH (Z.min x y)) as [[H1 H2] H3]. split; [split|].
    + lia.
    + intros z [<- | Hz]; [lia | auto].
    + simpl in H3. destruct H3 as [H3 | H3]; [|auto].
      rewrite <- H3. destruct (Z.min_spec x y) as [[_ ->] | [_ ->]]; auto.
Qed.

Lemma fold_max_spec (t : list Z) (x : Z) :
  (x <= fold_left Z.max t x /\ forall y, In y t -> y <= fold_left Z.max t x)
  /\ In (fold_left Z.max t x) (x :: t).
Proof.
  revert x; induction t as [|y t IH]; intros x; simpl.
  - split; [split; [lia | tauto] | auto].
  - destruct (IH (Z.max x y)) as [[H1 H2] H3]. split; [split|].
    + lia.
    + intros z [<- | Hz]; [lia | auto].
    + simpl in H3. destruct H3 as [H3 | H3]; [|auto].
      rewrite <- H3. destruct (Z.max_spec x y) as [[_ ->] | [_ ->]]; auto.
Qed.

(** [serie_min] and [serie_max] are the least and the greatest element. *)
Lemma serie_min_spec (l : list Z) :
  l <> [] ->
  In (serie_min l) l /\ forall y, In y l -> serie_min l <= y.
Proof.
  destruct l as [|x t]; [congruence|]; intros _; simpl.
  destruct (fold_min_spec t x) as [[H1 H2] H3]. split; [exact H3|].
  intros y [<- | Hy]; auto.
Qed.

Lemma serie_max_spec (l : list Z) :
  l <> [] ->
  In (serie_max l) l /\ forall y, In y l -> y <= serie_max l.
Proof.
  destruct l as [|x t]; [congruence|]; intros _; simpl.
  destruct (fold_max_spec t x) as [[H1 H2] H3]. split; [exact H3|].
  intros y [<- | Hy]; auto.
Qed.

Lemma date_range_length (a b : Z) :
  List.length (date_range a b) = Z.to_nat (b - a + 1).
Proof. unfold date_range. now rewrite length_map, length_seq. Qed.

Lemma date_range_In (a b m : Z) : In m (date_range a b) <-> a <= m <= b.
Proof.
  unfold date_range. rewrite in_map_iff. split.
  - intros [i [<- Hi]]. apply in_seq in Hi. lia.
  - intros H. exists (Z.to_nat (m - a)). split; [lia|].
    apply in_seq. lia.
Qed.

Lemma date_range_NoDup (a b : Z) : NoDup (date_range a b).
Proof.
  unfold date_range. apply Finite.Injective_map_NoDup.
  - intros i j H. lia.
  - apply seq_NoDup.
Qed.

Lemma is_unique_NoDup (ks : list Chave) : is_unique ks = true <-> NoDup ks.
Proof.
  induction ks as [|k t IH]; simpl.
  - split; [constructor | reflexivity].
  - rewrite andb_true_iff, negb_true_iff, IH. split.
    + intros [Hn Hd]. constructor; [|exact Hd].
      intros Hin. apply not_true_iff_false in Hn. apply Hn.
      apply existsb_exists. exists k. split; [exact Hin|].
      now apply chave_eqb_eq.
    + intros H. inversion H as [|? ? Hn Hd]; subst. split; [|exact Hd].
      apply not_true_iff_false. intros He.
      apply existsb_exists in He. destruct He as [k' [Hin He]].
      apply chave_eqb_eq in He. now subst.
Qed.

Lemma set_index_keys (df : DataFrame) :
  map fst (set_index df) = map chave df.
Proof. unfold set_index. rewrite map_map. reflexivity. Qed.


Lemma get_loc_Some (k : Chave) (v : Z) (idx : list (Chave * Z)) :
  NoDup (map fst idx) -> In (k, v) idx -> get_loc k idx = Some v.
Proof.
  induction idx as [|[k' v'] t IH]; simpl; [tauto|].
  intros Hnd [H | H].
  - inversion H; subst.
    assert (E : chave_eqb k k = true) by now apply chave_eqb_eq.
    now rewrite E.
  - inversion Hnd as [|? ? Hn Hd]; subst.
    destruct (chave_eqb k k') eqn:E; [|auto].
    apply chave_eqb_eq in E. subst. exfalso. apply Hn.
    apply in_map_iff. exists (k', v). auto.
Qed.

Lemma extrair_dados_unico (df : DataFrame) :
  df <> [] -> NoDup (map chave df) -> extrair_dados df = Ok (grade df).
Proof.
  intros Hne Hnd. destruct df as [|r t]; [congruence|].
  unfold extrair_dados, reindex.
  rewrite set_index_keys.
  apply is_unique_NoDup in Hnd. rewrite Hnd.
  unfold grade, reset_index. rewrite !map_map. reflexivity.
Qed.



Lemma grade_In (df : DataFrame) (m : Z) (op : string) (q : Z) :
  In (mkLinha m op q) (grade df) <->
  (serie_min (map MINUTO df) <= m <= serie_max (map MINUTO df)
   /\ In op (map CD_OPR df)
   /\ q = fillna0 (get_loc (m, op) (set_index df))).
Proof.
  unfold grade, from_product. rewrite in_map_iff. split.
  - intros [[m' op'] [E H]]. simpl in E. inversion E; subst.
    apply in_prod_iff in H. destruct H as [H1 H2].
    apply date_range_In in H1. apply (proj1 (unique_In _ _)) in H2. auto.
  - intros [H1 [H2 ->]]. exists (m, op). split; [reflexivity|].
    apply in_prod_iff. split; [now apply date_range_In | now apply unique_In].
Qed.

End LoaderFacts.

Section LoaderClaims.
Import Loader.







End LoaderClaims.

(** * Sorting *)

Section SortFacts.
Context {A : Type} (le : A -> A -> bool).

Lemma insert_Permutation (x : A) (l : list A) :
  Permutation (Np.insert le x l) (x :: l).
Proof.
  induction l as [|y t IH]; simpl; [reflexivity|].
  destruct (le y x); [|reflexivity].
  rewrite IH. apply perm_swap.
Qed.

Lemma sort_Permutation (l : list A) : Permutation (Np.sort le l) l.
Proof.
  induction l as [|x t IH]; simpl; [reflexivity|].
  rewrite insert_Permutation. now constructor.
Qed.

Lemma sort_In (l : list A) (x : A) : In x (Np.sort le l) <-> In x l.
Proof.
  split; apply Permutation_in;
    [apply sort_Permutation | symmetry; apply sort_Permutation].
Qed.

Lemma sort_length (l : list A) : List.length (Np.sort le l) = List.length l.
Proof. apply Permutation_length, sort_Permutation. Qed.

Lemma filter_Permutation (f : A -> bool) (l l' : list A) :
  Permutation l l' -> Permutation (filter f l) (filter f l').
Proof.
  induction 1 as [| x l l' _ IH | x y l | l l' l'' _ IH1 _ IH2]; simpl.
  - reflexivity.
  - destruct (f x); [now constructor | exact IH].
  - destruct (f x), (f y); try reflexivity. apply perm_swap.
  - now transitivity (filter f l').
Qed.

Lemma sort_filter_length (f : A -> bool) (l : list A) :
  List.length (filter f (Np.sort le l)) = List.length (filter f l).
Proof. apply Permutation_length, filter_Permutation, sort_Permutation. Qed.

End SortFacts.

(** * Per-operator series of a densified frame *)

Section GroupFacts.
Import Loader.

Lemma filter_eqb_notin (k : string) (l : list string) :
  ~ In k l -> filter (fun y => String.eqb y k) l = [].
Proof.
  induction l as [|y t IH]; simpl; [reflexivity|]. intros Hn.
  destruct (String.eqb y k) eqn:E.
  - apply String.eqb_eq in E. subst. exfalso. apply Hn. now left.
  - apply IH. intros H. apply Hn. now right.
Qed.

Lemma filter_eqb_NoDup (k : string) (l : list string) :
  NoDup l -> In k l ->
  List.length (filter (fun y => String.eqb y k) l) = 1%nat.
Proof.
  induction 1 as [|x t Hn Hd IH]; simpl; [tauto|].
  intros [-> | Hin].
  - rewrite String.eqb_refl. simpl. now rewrite filter_eqb_notin.
  - destruct (String.eqb x k) eqn:E; [|auto].
    apply String.eqb_eq in E. subst. contradiction.
Qed.

Lemma filter_prod_length (k : string) (ms : list Z) (ops : list string) :
  NoDup ops -> In k ops ->
  List.length
    (filter (fun p : Chave => String.eqb (snd p) k) (list_prod ms ops))
  = List.length ms.
Proof.
  intros Hnd Hin. induction ms as [|m ms IH]; simpl; [reflexivity|].
  rewrite filter_app, length_app.
  change (S (List.length ms)) with (1 + List.length ms)%nat.
  f_equal; [|exact IH].
  assert (E : forall l,
             List.length
               (filter (fun p : Chave => String.eqb (snd p) k)
                       (map (fun y => (m, y)) l))
             = List.length (filter (fun y => String.eqb y k) l)).
  { induction l as [|y l IHl]; simpl; [reflexivity|].
    destruct (String.eqb y k); simpl; now rewrite IHl. }
  rewrite E. now apply filter_eqb_NoDup.
Qed.

Lemma grade_CD_OPR (df : DataFrame) (r : Linha) :
  In r (grade df) -> In (CD_OPR r) (unique (map CD_OPR df)).
Proof.
  unfold grade, from_product. rewrite in_map_iff.
  intros [[m op] [<- H]]. simpl. apply in_prod_iff in H. tauto.
Qed.

(** In the densified frame every operator has one row per minute. *)
Lemma grade_grupo_length (df : DataFrame) (k : string) :
  In k (unique (map CD_OPR df)) ->
  List.length (filter (fun r => String.eqb (CD_OPR r) k) (grade df))
  = Z.to_nat (serie_max (map MINUTO df) - serie_min (map MINUTO df) + 1).
Proof.
  intros Hk. unfold grade, from_product.
  rewrite <- date_range_length.
  rewrite <- (filter_prod_length k _ (unique (map CD_OPR df)))
    by (auto using unique_NoDup).
  generalize (list_prod
                (date_range (serie_min (map MINUTO df))
                            (serie_max (map MINUTO df)))
                (unique (map CD_OPR df))).
  induction l as [|p l IH]; simpl; [reflexivity|].
  destruct (String.eqb (snd p) k); simpl; now rewrite IH.
Qed.

Lemma groupby_In (dados : DataFrame) (k : string) (grupo : DataFrame) :
  In (k, grupo) (Anomaly.groupby dados) ->
  In k (map CD_OPR dados)
  /\ grupo = filter (fun r => String.eqb (CD_OPR r) k) dados.
Proof.
  unfold Anomaly.groupby. intros H. apply in_map_iff in H.
  destruct H as [k' [E H]]. inversion E; subst. split; [|reflexivity].
  apply (proj1 (sort_In String.leb _ _)) in H.
  now apply (proj1 (unique_In _ _)) in H.
Qed.

Lemma metricas_do_grupo_CD_OPR (k : string) (grupo : DataFrame) :
  map Anomaly.CD_OPR (Anomaly.metricas_do_grupo k grupo)
  = if (List.length grupo <? 10)%nat then [] else [k].
Proof.
  unfold Anomaly.metricas_do_grupo. rewrite length_map.
  destruct (List.length grupo <? 10)%nat; [reflexivity|].
  destruct (Metrics.calcula_autocorr_diff _ _). reflexivity.
Qed.

End GroupFacts.

Section GroupClaims.
Import Loader.

Lemma extrair_dados_Ok (df g : DataFrame) :
  extrair_dados df = Ok g -> g = grade df.
Proof.
  destruct df as [|r t]; [intros H; now inversion H|].
  unfold extrair_dados, reindex. rewrite set_index_keys.
  destruct (is_unique (map chave (r :: t))); [|discriminate].
  intros H. inversion H. unfold grade, reset_index.
  rewrite !map_map. reflexivity.
Qed.

Lemma metricas_todos_ou_nenhum (n : nat)
    (gs : list (string * DataFrame)) :
  (forall k grupo, In (k, grupo) gs -> List.length grupo = n) ->
  if (n <? 10)%nat
  then flat_map (fun g => Anomaly.metricas_do_grupo (fst g) (snd g)) gs = []
  else map Anomaly.CD_OPR
           (flat_map (fun g => Anomaly.metricas_do_grupo (fst g) (snd g)) gs)
       = map fst gs.
Proof.
  intros H. destruct (n <? 10)%nat eqn:E.
  - induction gs as [|[k grupo] gs IH]; simpl; [reflexivity|].
    rewrite IH by (intros; eapply H; right; eassumption).
    unfold Anomaly.metricas_do_grupo. rewrite length_map.
    rewrite (H k grupo) by now left. now rewrite E.
  - induction gs as [|[k grupo] gs IH]; simpl; [reflexivity|].
    rewrite map_app, IH by (intros; eapply H; right; eassumption).
    rewrite metricas_do_grupo_CD_OPR.
    rewrite (H k grupo) by now left. now rewrite E.
Qed.

(** C10: in a frame returned by [extrair_dados], the series of every
    operator (the groups of [groupby('CD_OPR')]) has the same length, the
    number of minutes of the global span; so the minimum-length filter of
    [calcular_metricas_por_processo] keeps every operator (one record per
    group, in the order of the groups) or skips every one. *)
Theorem series_mesmo_comprimento (df g : DataFrame) :
  extrair_dados df = Ok g ->
  let n :=
    Z.to_nat (serie_max (map MINUTO df) - serie_min (map MINUTO df) + 1) in
  (forall k grupo,
      In (k, grupo) (Anomaly.groupby (Anomaly.sort_values g)) ->
      List.length (map QTD grupo) = n)
  /\ (((10 <= n)%nat
       /\ map Anomaly.CD_OPR (Anomaly.calcular_metricas_por_processo g)
          = map fst (Anomaly.groupby (Anomaly.sort_values g)))
      \/ ((n < 10)%nat /\ Anomaly.calcular_metricas_por_processo g = [])).
Proof.
  intros Hg n. apply extrair_dados_Ok in Hg. subst g.
  assert (Hlen : forall k grupo,
             In (k, grupo) (Anomaly.groupby (Anomaly.sort_values (grade df)))
             -> List.length grupo = n).
  { intros k grupo H. apply groupby_In in H. destruct H as [Hk ->].
    unfold Anomaly.sort_values. rewrite sort_filter_length.
    apply grade_grupo_length.
    apply in_map_iff in Hk. destruct Hk as [r [<- Hr]].
    apply (proj1 (sort_In _ _ _)) in Hr. now apply grade_CD_OPR. }
  split.
  - intros k grupo H. rewrite length_map. exact (Hlen k grupo H).
  - pose proof (metricas_todos_ou_nenhum n _ Hlen) as H.
    unfold Anomaly.calcular_metricas_por_processo.
    destruct (n <? 10)%nat eqn:E.
    + right. split; [now apply Nat.ltb_lt | exact H].
    + left. split; [now apply Nat.ltb_ge | exact H].
Qed.

Lemma series_mesmo_comprimento_witness :
  ((10 <= 3)%nat
   /\ map Anomaly.CD_OPR
          (Anomaly.calcular_metricas_por_processo
             (grade [mkLinha 0 "B" 3; mkLinha 2 "A" 1; mkLinha 1 "B" 4]))
      = map fst
            (Anomaly.groupby
               (Anomaly.sort_values
                  (grade [mkLinha 0 "B" 3; mkLinha 2 "A" 1;
                          mkLinha 1 "B" 4]))))
  \/ ((3 < 10)%nat
      /\ Anomaly.calcular_metricas_por_processo
           (grade [mkLinha 0 "B" 3; mkLinha 2 "A" 1; mkLinha 1 "B" 4])
         = []).
Proof.
  destruct (series_mesmo_comprimento
              [mkLinha 0 "B" 3; mkLinha 2 "A" 1; mkLinha 1 "B" 4]
              (grade [mkLinha 0 "B" 3; mkLinha 2 "A" 1; mkLinha 1 "B" 4])
              eq_refl) as [_ H].
  exact H.
Defined.

End GroupClaims.

(** * Arithmetic of the float model *)

Section FloatFacts.
Import Float.
Local Open Scope R_scope.

Lemma Reqb_true (x y : R) : Reqb x y = true <-> x = y.
Proof. unfold Reqb. destruct (Req_dec_T x y); split; congruence. Qed.

Lemma Reqb_false (x y : R) : Reqb x y = false <-> x <> y.
Proof. unfold Reqb. destruct (Req_dec_T x y); split; congruence. Qed.

Lemma Rltb_true (x y : R) : Rltb x y = true <-> x < y.
Proof. unfold Rltb. destruct (Rlt_dec x y); split; congruence. Qed.

Lemma Rltb_false (x y : R) : Rltb x y = false <-> y <= x.
Proof.
  unfold Rltb. destruct (Rlt_dec x y); split; try congruence; lra.
Qed.

Lemma fleb_Fin (x y : R) : fleb (Fin x) (Fin y) = true <-> x <= y.
Proof.
  unfold fleb. simpl. rewrite orb_true_iff, Rltb_true, Reqb_true. lra.
Qed.


Lemma fdiv_Fin (a b : R) : b <> 0 -> fdiv (Fin a) (Fin b) = Fin (a / b).
Proof.
  intros H. simpl. apply Reqb_false in H. now rewrite H.
Qed.

Lemma fold_fadd_Fin (l : list R) (a : R) :
  fold_left fadd (map Fin l) (Fin a) = Fin (a + Mat.soma l).
Proof.
  revert a. induction l as [|x t IH]; intros a; simpl.
  - f_equal. lra.
  - rewrite IH. f_equal. lra.
Qed.

Lemma sum_Fin (l : list R) : Np.sum (map Fin l) = Fin (Mat.soma l).
Proof.
  unfold Np.sum, zero. rewrite fold_fadd_Fin. f_equal. lra.
Qed.

Lemma INR_length_neq0 {A : Type} (l : list A) :
  l <> [] -> INR (List.length l) <> 0.
Proof.
  destruct l; [congruence|]. intros _. apply not_0_INR. discriminate.
Qed.

Lemma mean_Fin (l : list R) :
  l <> [] -> Np.mean (map Fin l) = Fin (Mat.soma l / INR (List.length l)).
Proof.
  intros H. unfold Np.mean, of_nat. rewrite sum_Fin, length_map.
  apply fdiv_Fin. now apply INR_length_neq0.
Qed.

Lemma to_float_Fin (serie : list Z) :
  Metrics.to_float serie = map Fin (Mat.reais serie).
Proof.
  unfold Metrics.to_float, Mat.reais, of_int. now rewrite map_map.
Qed.

Lemma mean_serie (serie : list Z) :
  serie <> [] -> Np.mean (Metrics.to_float serie) = Fin (Mat.media serie).
Proof.
  intros H. rewrite to_float_Fin, mean_Fin.
  - unfold Mat.media, Mat.reais. now rewrite length_map.
  - unfold Mat.reais. destruct serie; [congruence | discriminate].
Qed.

Lemma soma_quadrados_nonneg (f : R -> R) (l : list R) :
  0 <= Mat.soma (map (fun x => f x * f x) l).
Proof.
  induction l as [|x t IH]; simpl; [lra|]. nra.
Qed.

Lemma variancia_nonneg (serie : list Z) : 0 <= Mat.variancia serie.
Proof.
  unfold Mat.variancia. destruct serie as [|x t].
  - simpl. unfold Rdiv. rewrite Rinv_0. lra.
  - apply Rmult_le_pos.
    + generalize (Mat.media (x :: t)). intros m.
      apply (soma_quadrados_nonneg (fun y => y - m)).
    + left. apply Rinv_0_lt_compat. apply lt_0_INR. simpl. lia.
Qed.

Lemma var_serie (serie : list Z) :
  serie <> [] -> Np.var (Metrics.to_float serie) = Fin (Mat.variancia serie).
Proof.
  intros H. unfold Np.var. rewrite (mean_serie serie H).
  rewrite to_float_Fin, !map_map, length_map. simpl.
  rewrite <- (map_map (fun x => (x + - Mat.media serie)
                                * (x + - Mat.media serie)) Fin).
  rewrite sum_Fin. unfold of_nat.
  rewrite fdiv_Fin.
  - unfold Mat.variancia, Mat.reais. rewrite !length_map. reflexivity.
  - apply INR_length_neq0. unfold Mat.reais.
    destruct serie; [congruence | discriminate].
Qed.

Lemma std_serie (serie : list Z) :
  serie <> [] ->
  Np.std (Metrics.to_float serie) = Fin (Mat.desvio_padrao serie).
Proof.
  intros H. unfold Np.std. rewrite (var_serie serie H). simpl.
  pose proof (variancia_nonneg serie) as Hv.
  apply Rltb_false in Hv. now rewrite Hv.
Qed.

End FloatFacts.

(** * Coefficient of variation *)

Section CvFacts.
Import Float.
Local Open Scope R_scope.

Lemma soma_constante (c : Z) (serie : list Z) :
  (forall x, In x serie -> x = c) ->
  Mat.soma (Mat.reais serie) = INR (List.length serie) * IZR c.
Proof.
  induction serie as [|x t IH]; intros H.
  - simpl. lra.
  - change (Mat.soma (Mat.reais (x :: t)))
      with (IZR x + Mat.soma (Mat.reais t)).
    rewrite IH by (intros; apply H; now right).
    rewrite (H x) by now left.
    change (List.length (c :: t)) with (S (List.length t)).
    rewrite S_INR. lra.
Qed.

Lemma media_constante (c : Z) (serie : list Z) :
  serie <> [] -> (forall x, In x serie -> x = c) ->
  Mat.media serie = IZR c.
Proof.
  intros Hne H. unfold Mat.media. rewrite (soma_constante c serie H).
  field. now apply INR_length_neq0.
Qed.





(** The mean of an empty array is NaN, which is not equal to 0: the
    coefficient of variation of an empty series is NaN. *)
Lemma calcula_cv_vazia : Metrics.calcula_cv [] = NaN.
Proof.
  unfold Metrics.calcula_cv, Np.mean, Np.std, Np.var, Np.mean, Np.sum.
  simpl. unfold Reqb.
  destruct (Req_dec_T 0 0) as [_|H]; [|congruence].
  unfold Rltb. destruct (Rlt_dec 0 0) as [H|_]; [lra|]. reflexivity.
Qed.

End CvFacts.

(** * Autocorrelation of the first difference: the degenerate cases *)

Section DiffFacts.
Import Float.

Lemma diff_length (a : list Z) :
  List.length (Np.diff a) = (List.length a - 1)%nat.
Proof.
  induction a as [|x t IH]; [reflexivity|].
  destruct t as [|y t]; [reflexivity|].
  change (Np.diff (x :: y :: t)) with (Np.wrap64 (y - x) :: Np.diff (y :: t)).
  simpl List.length in *. rewrite IH. lia.
Qed.

Lemma diff_constante_true (d : list Z) :
  Metrics.diff_constante d = true <-> forall x, In x d -> x = hd 0 d.
Proof.
  unfold Metrics.diff_constante, Np.all. rewrite forallb_forall. split.
  - intros H x Hx. apply Z.eqb_eq. apply H.
    apply in_map_iff. exists x. auto.
  - intros H b Hb. apply in_map_iff in Hb. destruct Hb as [x [<- Hx]].
    apply Z.eqb_eq. now apply H.
Qed.

Lemma diff_constante_iguais (d : list Z) :
  (forall x y, In x d -> In y d -> x = y) -> Metrics.diff_constante d = true.
Proof.
  intros H. apply diff_constante_true. intros x Hx.
  destruct d as [|y t]; [contradiction|]. simpl.
  apply H; [exact Hx | now left].
Qed.

Lemma calcula_autocorr_diff_constante (serie : list Z) (nlags : Z) :
  Metrics.diff_constante (Np.diff serie) = true ->
  Metrics.calcula_autocorr_diff serie nlags = (zero, 0).
Proof.
  intros H. unfold Metrics.calcula_autocorr_diff.
  destruct (List.length serie <? 2)%nat; [reflexivity|].
  rewrite H, orb_true_r. reflexivity.
Qed.

(** The first difference of an arithmetic progression is constant, also
    when the subtraction wraps around. *)
Lemma diff_linear (a b : Z) (n s : nat) (x : Z) :
  In x (Np.diff (map (fun i => a + b * Z.of_nat i) (seq s n))) ->
  x = Np.wrap64 b.
Proof.
  revert s. induction n as [|n IH]; intros s; [simpl; tauto|].
  destruct n as [|n]; [simpl; tauto|].
  change (seq s (S (S n))) with (s :: S s :: seq (S (S s)) n).
  change (seq (S s) (S n)) with (S s :: seq (S (S s)) n) in IH.
  simpl map. simpl map in IH.
  change (Np.diff (?u :: ?v :: ?w))
    with (Np.wrap64 (v - u) :: Np.diff (v :: w)).
  intros [H | H].
  - rewrite <- H. f_equal. lia.
  - apply (IH (S s)). exact H.
Qed.

End DiffFacts.

Section DegenerateClaims.
Import Float.

(** C5: [calcula_autocorr_diff] returns (0, 0), for every number of lags,
    on a series of length 0 or 1, on a series whose first difference has
    fewer than 2 values, and on a series whose first difference is constant
    (all its values equal), in particular on an arithmetic progression. The
    function is total: no case raises. *)
Theorem calcula_autocorr_diff_degenerado (serie : list Z) (nlags : Z) :
  ((List.length serie < 2)%nat ->
   Metrics.calcula_autocorr_diff serie nlags = (zero, 0))
  /\ ((List.length (Np.diff serie) < 2)%nat ->
      Metrics.calcula_autocorr_diff serie nlags = (zero, 0))
  /\ ((forall x y, In x (Np.diff serie) -> In y (Np.diff serie) -> x = y) ->
      Metrics.calcula_autocorr_diff serie nlags = (zero, 0))
  /\ (forall (a b : Z) (n : nat),
        serie = map (fun i => a + b * Z.of_nat i) (seq 0 n) ->
        Metrics.calcula_autocorr_diff serie nlags = (zero, 0)).
Proof.
  split; [|split; [|split]].
  - intros H. unfold Metrics.calcula_autocorr_diff.
    apply Nat.ltb_lt in H. now rewrite H.
  - intros H. unfold Metrics.calcula_autocorr_diff.
    destruct (List.length serie <? 2)%nat; [reflexivity|].
    apply Nat.ltb_lt in H. now rewrite H.
  - intros H. apply calcula_autocorr_diff_constante.
    now apply diff_constante_iguais.
  - intros a b n ->. apply calcula_autocorr_diff_constante.
    apply diff_constante_iguais. intros x y Hx Hy.
    apply diff_linear in Hx. apply diff_linear in Hy. congruence.
Qed.

Lemma calcula_autocorr_diff_degenerado_witness :
  Metrics.calcula_autocorr_diff [7] 360 = (zero, 0)
  /\ Metrics.calcula_autocorr_diff [1; 4] 360 = (zero, 0)
  /\ Metrics.calcula_autocorr_diff [3; 5; 7; 9; 11] 360 = (zero, 0).
Proof.
  split; [|split].
  - apply (calcula_autocorr_diff_degenerado [7] 360). simpl. lia.
  - apply (calcula_autocorr_diff_degenerado [1; 4] 360). simpl. lia.
  - apply (proj2 (proj2 (proj2
             (calcula_autocorr_diff_degenerado [3; 5; 7; 9; 11] 360)))
             3 2 5%nat).
    reflexivity.
Defined.

End DegenerateClaims.

(** * Shape of the autocorrelation function *)

Section AcfShape.
Import Float.

Lemma acovf_length (x : list float) :
  List.length (Np.acovf x) = List.length x.
Proof. unfold Np.acovf. now rewrite length_map, length_seq. Qed.

Lemma slice_to_length {A : Type} (a : list A) (k : Z) :
  0 <= k <= Z.of_nat (List.length a) ->
  List.length (Np.slice_to a k) = Z.to_nat k.
Proof.
  intros H. unfold Np.slice_to.
  destruct (0 <=? k) eqn:E; [|apply Z.leb_gt in E; lia].
  rewrite length_firstn. lia.
Qed.

Lemma acf_length (x : list float) (nlags : Z) :
  0 <= nlags < Z.of_nat (List.length x) ->
  List.length (Np.acf x nlags) = S (Z.to_nat nlags).
Proof.
  intros H. unfold Np.acf. rewrite length_map, slice_to_length.
  - lia.
  - rewrite acovf_length. lia.
Qed.

Lemma argmax_loop_bound (a : list float) (mp : float) (max_ind i : nat) :
  (max_ind < i)%nat ->
  (Np.argmax_loop mp max_ind i a < i + List.length a)%nat.
Proof.
  revert mp max_ind i. induction a as [|x t IH]; intros mp max_ind i H.
  - simpl. lia.
  - simpl. destruct (isnan mp); [lia|].
    destruct (negb (fleb x mp)).
    + specialize (IH x i (S i)). lia.
    + specialize (IH mp max_ind (S i)). lia.
Qed.

Lemma argmax_bound (a : list float) :
  a <> [] -> (Np.argmax a < List.length a)%nat.
Proof.
  destruct a as [|x t]; [congruence|]. intros _. simpl.
  pose proof (argmax_loop_bound t x 0%nat 1%nat). lia.
Qed.

(** Outside the degenerate cases the result is the maximum of the absolute
    autocorrelations after lag 0 and the position of that maximum, counted
    from 1. *)
Lemma calcula_autocorr_diff_geral (serie : list Z) (nlags : Z) :
  (2 <= List.length (Np.diff serie))%nat ->
  Metrics.diff_constante (Np.diff serie) = false ->
  1 <= nlags ->
  let m := Z.min nlags (Z.of_nat (List.length (Np.diff serie)) - 1) in
  let acf_abs :=
    Np.abs (tl (Np.acf (Metrics.to_float (Np.diff serie)) m)) in
  List.length acf_abs = Z.to_nat m
  /\ Metrics.calcula_autocorr_diff serie nlags
     = (Np.max acf_abs, Z.of_nat (Np.argmax acf_abs) + 1).
Proof.
  intros Hlen Hc Hn m acf_abs.
  assert (Hm : 1 <= m < Z.of_nat (List.length (Np.diff serie))).
  { unfold m. lia. }
  assert (Hl : List.length acf_abs = Z.to_nat m).
  { unfold acf_abs, Np.abs. rewrite length_map.
    pose proof (acf_length (Metrics.to_float (Np.diff serie)) m) as H.
    unfold Metrics.to_float in H at 1. rewrite length_map in H.
    specialize (H ltac:(lia)).
    destruct (Np.acf (Metrics.to_float (Np.diff serie)) m); simpl in *; lia. }
  split; [exact Hl|].
  unfold Metrics.calcula_autocorr_diff.
  pose proof (diff_length serie) as Hd.
  destruct (List.length serie <? 2)%nat eqn:E1;
    [apply Nat.ltb_lt in E1; lia|].
  destruct (List.length (Np.diff serie) <? 2)%nat eqn:E2;
    [apply Nat.ltb_lt in E2; lia|].
  rewrite Hc. simpl orb. cbv iota.
  fold m. unfold Np.slice_from1. fold acf_abs.
  destruct (List.length acf_abs =? 0)%nat eqn:E3; [|reflexivity].
  apply Nat.eqb_eq in E3. lia.
Qed.

Lemma calcula_autocorr_diff_lag (serie : list Z) (nlags : Z) :
  (2 <= List.length (Np.diff serie))%nat ->
  Metrics.diff_constante (Np.diff serie) = false ->
  1 <= nlags ->
  1 <= snd (Metrics.calcula_autocorr_diff serie nlags)
    <= Z.min nlags (Z.of_nat (List.length (Np.diff serie)) - 1).
Proof.
  intros Hlen Hc Hn.
  destruct (calcula_autocorr_diff_geral serie nlags Hlen Hc Hn) as [Hl ->].
  simpl snd.
  set (acf_abs := Np.abs _) in *.
  assert (Hne : acf_abs <> []).
  { intros E. rewrite E in Hl. simpl in Hl. lia. }
  pose proof (argmax_bound acf_abs Hne). lia.
Qed.

End AcfShape.

Section LagClaims.
Import Float.

(** C8 (amended): every record produced by
    [calcular_metricas_por_processo] belongs to an operator whose series
    has at least 10 values, and its [autocorr_lag] is an integer that is 0
    when the first difference of that series is constant and lies between 1
    and min(360, length of the difference - 1) otherwise; it is never
    negative. *)
Theorem autocorr_lag_intervalo (dados : Loader.DataFrame)
    (r : Anomaly.Metrica) :
  In r (Anomaly.calcular_metricas_por_processo dados) ->
  exists grupo,
    In (Anomaly.CD_OPR r, grupo)
       (Anomaly.groupby (Anomaly.sort_values dados))
    /\ (10 <= List.length (map Loader.QTD grupo))%nat
    /\ 0 <= Anomaly.autocorr_lag r
    /\ (Metrics.diff_constante (Np.diff (map Loader.QTD grupo)) = true ->
        Anomaly.autocorr_lag r = 0)
    /\ (Metrics.diff_constante (Np.diff (map Loader.QTD grupo)) = false ->
        1 <= Anomaly.autocorr_lag r
          <= Z.min 360 (Z.of_nat (List.length (map Loader.QTD grupo)) - 2)).
Proof.
  unfold Anomaly.calcular_metricas_por_processo. intros H.
  apply in_flat_map in H. destruct H as [[k grupo] [Hg Hr]].
  simpl in Hr. unfold Anomaly.metricas_do_grupo in Hr.
  set (serie := map Loader.QTD grupo) in *.
  destruct (List.length serie <? 10)%nat eqn:E; [contradiction|].
  apply Nat.ltb_ge in E.
  destruct (Metrics.calcula_autocorr_diff serie Anomaly.nlags_padrao)
    as [a lag] eqn:Ec.
  destruct Hr as [<- | []]. simpl.
  exists grupo. fold serie. split; [exact Hg|]. split; [exact E|].
  pose proof (diff_length serie) as Hd.
  assert (Ht : Metrics.diff_constante (Np.diff serie) = true -> lag = 0).
  { intros Hc.
    rewrite (calcula_autocorr_diff_constante serie _ Hc) in Ec.
    now inversion Ec. }
  assert (Hf : Metrics.diff_constante (Np.diff serie) = false ->
               1 <= lag <= Z.min 360 (Z.of_nat (List.length serie) - 2)).
  { intros Hc.
    pose proof (calcula_autocorr_diff_lag serie Anomaly.nlags_padrao) as Hl.
    rewrite Ec in Hl. simpl in Hl. unfold Anomaly.nlags_padrao in Hl.
    specialize (Hl ltac:(lia) Hc ltac:(lia)). lia. }
  split; [|split; [exact Ht | exact Hf]].
  destruct (Metrics.diff_constante (Np.diff serie)); [rewrite Ht|]; lia.
Qed.

(** C8 as stated fails: an operator that reports 5 in each of 10 minutes
    gets a record whose [autocorr_lag] is 0. *)
Lemma autocorr_lag_counterexample :
  exists g,
    Loader.extrair_dados
      (map (fun i => Loader.mkLinha (Z.of_nat i) "A" 5) (seq 0 10)) = Ok g
    /\ map Anomaly.CD_OPR (Anomaly.calcular_metricas_por_processo g)
       = ["A"%string]
    /\ map Anomaly.autocorr_lag (Anomaly.calcular_metricas_por_processo g)
       = [0]
    /\ ~ (forall r, In r (Anomaly.calcular_metricas_por_processo g) ->
                    1 <= Anomaly.autocorr_lag r).
Proof.
  eexists. split; [reflexivity|]. split; [reflexivity|].
  split; [reflexivity|]. intros H.
  match type of H with
  | forall r, In r ?X -> _ =>
      assert (E : map Anomaly.autocorr_lag X = [0]) by reflexivity;
      destruct X as [|r t]; [discriminate|]
  end.
  specialize (H r (or_introl eq_refl)). inversion E. lia.
Qed.

Lemma autocorr_lag_intervalo_witness :
  exists grupo,
    In ("B"%string, grupo)
       (Anomaly.groupby
          (Anomaly.sort_values
             (map (fun i => Loader.mkLinha (Z.of_nat i) "B" (Z.of_nat i))
                  (seq 0 10))))
    /\ (10 <= List.length (map Loader.QTD grupo))%nat
    /\ 0 <= 0.
Proof.
  destruct (autocorr_lag_intervalo
              (map (fun i => Loader.mkLinha (Z.of_nat i) "B" (Z.of_nat i))
                   (seq 0 10))
              (Anomaly.mkMetrica "B" zero 0
                 (Metrics.calcula_cv (map Z.of_nat (seq 0 10))) None None))
    as [grupo [H1 [H2 [H3 _]]]].
  - left. reflexivity.
  - exists grupo. auto.
Defined.

End LagClaims.

(** * Values of the autocorrelation function *)

Section AcfValues.
Import Float.
Local Open Scope R_scope.


Lemma reais_neq_nil (d : list Z) : d <> [] -> Mat.reais d <> [].
Proof. destruct d; [congruence | discriminate]. Qed.









End AcfValues.

(** * Maximum and position of the maximum of finite values *)

Section MaxFacts.
Import Float.
Local Open Scope R_scope.




End MaxFacts.

Section AutocorrClaims.
Import Float.
Local Open Scope R_scope.





End AutocorrClaims.

(** * Sanitization of the scores *)

Section SanearFacts.
Import Float Anomaly.

Lemma fmul_isfinite (a b : float) :
  isfinite (fmul a b) = true -> exists x y, a = Fin x /\ b = Fin y.
Proof.
  destruct a as [x| | |], b as [y| | |]; simpl; unfold mul_inf;
    try discriminate;
    try (intros _; exists x, y; now split);
    repeat match goal with
           | |- context [Rltb ?u ?v] => destruct (Rltb u v)
           end; simpl; discriminate.
Qed.

Lemma score_valido_Fin (r : Metrica) :
  score_valido r = true ->
  exists x y, cv r = Fin x /\ autocorr_max_diff r = Fin y
              /\ produto r = Fin (x * y).
Proof.
  unfold score_valido, produto. intros H.
  destruct (fmul_isfinite _ _ H) as [x [y [Hx Hy]]].
  exists x, y. rewrite Hx, Hy. auto.
Qed.

Lemma inf_to_nan_isna (x : float) :
  isnan (inf_to_nan x) = negb (isfinite x).
Proof. now destruct x. Qed.

(** After lines 94-100 the frame holds the rows whose product is finite,
    unchanged but for the new column. *)
Lemma sanear_validos (df : Metricas) :
  dropna_score (replace_inf (set_score df))
  = set_score (filter score_valido df).
Proof.
  induction df as [|r t IH]; [reflexivity|].
  simpl. unfold score_isna at 1. simpl.
  rewrite inf_to_nan_isna, negb_involutive.
  fold (produto r). fold (score_valido r).
  rewrite IH.
  destruct (score_valido r) eqn:E; [|reflexivity].
  simpl. f_equal.
  destruct (score_valido_Fin r E) as [x [y [Hx [Hy Hp]]]].
  fold (produto r). rewrite Hx, Hy, Hp. reflexivity.
Qed.

Lemma filter_idem {A : Type} (f : A -> bool) (l : list A) :
  filter f (filter f l) = filter f l.
Proof.
  induction l as [|x t IH]; simpl; [reflexivity|].
  destruct (f x) eqn:E; simpl; [rewrite E, IH|]; auto.
Qed.

Lemma coluna_score_set_score (df : Metricas) :
  coluna_score (set_score df) = map produto df.
Proof. unfold coluna_score, set_score. now rewrite map_map. Qed.

End SanearFacts.

(** * Anomaly detection *)

Section DetectarFacts.
Import Float Anomaly.

Lemma detectar_anomalias_classificar (df : Metricas) (sigma : float) :
  detectar_anomalias df sigma
  = match df with
    | [] => (mkRetorno [] NaN NaN NaN, [])
    | _ :: _ => classificar (set_score (filter score_valido df)) sigma
    end.
Proof.
  destruct df as [|r t]; [reflexivity|].
  unfold detectar_anomalias. rewrite sanear_validos. reflexivity.
Qed.

(** The returned tuple is a function of the rows with a finite product. *)
Lemma detectar_anomalias_retorno (df : Metricas) (sigma : float) :
  fst (detectar_anomalias df sigma)
  = fst (classificar (set_score (filter score_valido df)) sigma).
Proof.
  rewrite detectar_anomalias_classificar.
  destruct df as [|r t]; reflexivity.
Qed.

Lemma set_anormal_celulas (f : Metrica -> bool) (df : Metricas) :
  map celulas (set_anormal f df) = map celulas df.
Proof. unfold set_anormal. rewrite map_map. reflexivity. Qed.

Lemma set_score_celulas (df : Metricas) :
  map celulas (set_score df) = map celulas df.
Proof. unfold set_score. rewrite map_map. reflexivity. Qed.

Lemma set_anormal_score (f : Metrica -> bool) (df : Metricas) :
  map score_anomaly (set_anormal f df) = map score_anomaly df.
Proof. unfold set_anormal. rewrite map_map. reflexivity. Qed.

Lemma classificar_tabela (v : Metricas) (sigma : float) :
  Permutation (tabela (fst (classificar v sigma)))
              (snd (classificar v sigma)).
Proof.
  unfold classificar. destruct v as [|r t]; [reflexivity|].
  destruct (feqb _ zero); simpl; apply sort_Permutation.
Qed.

Lemma classificar_estado (v : Metricas) (sigma : float) :
  exists f, snd (classificar v sigma)
            = match v with [] => [] | _ :: _ => set_anormal f v end.
Proof.
  unfold classificar. destruct v as [|r t]; [now exists (fun _ => false)|].
  destruct (feqb _ zero); cbv zeta; unfold snd; eexists; reflexivity.
Qed.

Lemma classificar_estado_linhas (v : Metricas) (sigma : float) :
  map celulas (snd (classificar v sigma)) = map celulas v
  /\ map score_anomaly (snd (classificar v sigma)) = map score_anomaly v.
Proof.
  destruct (classificar_estado v sigma) as [f ->].
  destruct v as [|r t]; [split; reflexivity|].
  now rewrite set_anormal_celulas, set_anormal_score.
Qed.

End DetectarFacts.

Section DetectarClaims.
Import Float Anomaly.

Lemma feqb_zero (x : float) : feqb x zero = true <-> x = zero.
Proof.
  unfold zero. destruct x as [a| | |]; simpl;
    try (split; discriminate).
  rewrite Reqb_true. split; [now intros -> | intros H; now inversion H].
Qed.

Lemma linhas_classificadas (v : Metricas) (sigma : float) (r' : Metrica) :
  In r' (tabela (fst (classificar (set_score v) sigma))) ->
  exists r,
    In r v /\ celulas r' = celulas r /\ score_anomaly r' = Some (produto r).
Proof.
  intros H.
  apply (Permutation_in _ (classificar_tabela _ _)) in H.
  destruct (classificar_estado (set_score v) sigma) as [f E].
  rewrite E in H. clear E.
  destruct v as [|r0 t]; [contradiction|].
  change (set_score (r0 :: t)) with (set_score [r0] ++ set_score t) in H.
  simpl app in H. cbv iota in H.
  unfold set_anormal in H. apply in_map_iff in H.
  destruct H as [r1 [<- H1]].
  change (In r1 (set_score (r0 :: t))) in H1.
  unfold set_score in H1. apply in_map_iff in H1.
  destruct H1 as [r [<- Hr]].
  exists r. auto.
Qed.

Lemma classificar_mediana_mad (v : Metricas) (sigma : float) :
  mediana (fst (classificar (set_score v) sigma))
  = series_median (map produto v)
  /\ mad (fst (classificar (set_score v) sigma))
     = Metrics.calcula_mad (map produto v).
Proof.
  unfold classificar.
  destruct (set_score v) as [|r0 t] eqn:E.
  - destruct v; [split; reflexivity | discriminate].
  - rewrite <- E, coluna_score_set_score.
    now destruct (feqb _ zero).
Qed.

(** C6: the rows of [detectar_anomalias]'s table are, up to the order,
    the rows of the input whose score [cv * autocorr_max_diff] is a finite
    number, each with that score; the median and the MAD are those of the
    finite scores alone; and the whole returned tuple (table with its flags,
    median, MAD, upper limit) is the one returned for the input without the
    rows of infinite or NaN score. Such a row is in no table, so it is never
    flagged. *)
Theorem detectar_anomalias_exclui (df : Metricas) (sigma : float) :
  let ret := fst (detectar_anomalias df sigma) in
  let validos := filter score_valido df in
  Permutation (map celulas (tabela ret)) (map celulas validos)
  /\ (forall r', In r' (tabela ret) ->
        exists r, In r df /\ score_valido r = true
                  /\ celulas r' = celulas r
                  /\ score_anomaly r' = Some (produto r))
  /\ mediana ret = series_median (map produto validos)
  /\ mad ret = Metrics.calcula_mad (map produto validos)
  /\ ret = fst (detectar_anomalias validos sigma).
Proof.
  intros ret validos. unfold ret.
  rewrite detectar_anomalias_retorno. fold validos.
  split; [|split; [|split; [|split]]].
  - rewrite (Permutation_map celulas (classificar_tabela _ _)).
    destruct (classificar_estado_linhas (set_score validos) sigma) as [-> _].
    now rewrite set_score_celulas.
  - intros r' H. apply linhas_classificadas in H.
    destruct H as [r [Hr [Hc Hs]]]. exists r.
    unfold validos in Hr. apply filter_In in Hr. tauto.
  - apply classificar_mediana_mad.
  - apply classificar_mediana_mad.
  - rewrite detectar_anomalias_retorno. unfold validos.
    now rewrite filter_idem.
Qed.

Lemma validos_exemplo :
  filter score_valido
         [mkMetrica "A" (Fin 0) 0 PInf None None;
          mkMetrica "B" (Fin 3) 1 (Fin 2) None None]
  = [mkMetrica "B" (Fin 3) 1 (Fin 2) None None].
Proof.
  simpl. unfold score_valido, produto. simpl.
  unfold Rltb. destruct (Rlt_dec 0 0) as [H|_]; [lra | reflexivity].
Qed.

Lemma detectar_anomalias_exclui_witness :
  Permutation
    (map celulas
       (tabela
          (fst (detectar_anomalias
                  [mkMetrica "A" (Fin 0) 0 PInf None None;
                   mkMetrica "B" (Fin 3) 1 (Fin 2) None None]
                  (Fin 3)))))
    [("B"%string, Fin 3, 1, Fin 2)].
Proof.
  destruct (detectar_anomalias_exclui
              [mkMetrica "A" (Fin 0) 0 PInf None None;
               mkMetrica "B" (Fin 3) 1 (Fin 2) None None]
              (Fin 3)) as [H _].
  rewrite validos_exemplo in H. exact H.
Defined.

Lemma classificar_limite (v : Metricas) (sigma : float) :
  let ret := fst (classificar v sigma) in
  (mad ret = zero ->
   limite_superior ret = mediana ret
   /\ forall r, In r (tabela ret) -> anormal r = Some false)
  /\ (mad ret <> zero ->
      limite_superior ret = fadd (mediana ret) (fmul sigma (mad ret))
      /\ forall r, In r (tabela ret) ->
           anormal r = Some (fgtb (score r) (limite_superior ret))).
Proof.
  unfold classificar. destruct v as [|r0 t].
  - simpl. split; [discriminate|]. intros _. split; [reflexivity | tauto].
  - destruct (feqb (Metrics.calcula_mad (coluna_score (r0 :: t))) zero) eqn:E;
      cbv zeta; unfold fst, tabela, mad, mediana, limite_superior.
    + split.
      * intros _. split; [reflexivity|]. intros r Hr.
        apply (proj1 (sort_In _ _ _)) in Hr.
        unfold set_anormal in Hr. apply in_map_iff in Hr.
        now destruct Hr as [r1 [<- _]].
      * intros H. apply feqb_zero in E. contradiction.
    + split.
      * intros H. apply feqb_zero in H. congruence.
      * intros _. split; [reflexivity|]. intros r Hr.
        apply (proj1 (sort_In _ _ _)) in Hr.
        unfold set_anormal in Hr. apply in_map_iff in Hr.
        now destruct Hr as [r1 [<- _]].
Qed.


Lemma mad_c_pos : (0 < Np.mad_c)%R.
Proof. unfold Np.mad_c. lra. Qed.










(** C9: called on a non-empty metric table, [detectar_anomalias] changes the
    caller's frame: after the call it differs from the input, it holds
    exactly the rows whose score [cv * autocorr_max_diff] is neither NaN nor
    infinite (the others are deleted), in their order and with their four
    metric cells, every row has the new [score_anomaly] cell, and no cell of
    the float columns is infinite. *)
Theorem detectar_anomalias_muta (df : Metricas) (sigma : float) :
  df <> [] ->
  tabela_de_metricas df ->
  let final := snd (detectar_anomalias df sigma) in
  final <> df
  /\ map celulas final = map celulas (filter score_valido df)
  /\ (forall r, In r final ->
        score_anomaly r = Some (produto r)
        /\ isnan (produto r) = false
        /\ isinf (produto r) = false
        /\ isinf (cv r) = false
        /\ isinf (autocorr_max_diff r) = false).
Proof.
  intros Hne Hmt final.
  assert (Hfin : final
                 = snd (classificar (set_score (filter score_valido df))
                                    sigma)).
  { unfold final. rewrite detectar_anomalias_classificar.
    destruct df; [congruence | reflexivity]. }
  destruct (classificar_estado_linhas
              (set_score (filter score_valido df)) sigma) as [Hc Hs].
  rewrite <- Hfin in Hc, Hs. rewrite set_score_celulas in Hc.
  assert (Hrows : forall r, In r final ->
            exists r0, In r0 df /\ score_valido r0 = true
                       /\ celulas r = celulas r0
                       /\ score_anomaly r = Some (produto r0)).
  { intros r Hr. rewrite Hfin in Hr.
    apply (Permutation_in _ (Permutation_sym (classificar_tabela _ _))) in Hr.
    apply linhas_classificadas in Hr. destruct Hr as [r0 [H0 [H1 H2]]].
    apply filter_In in H0. exists r0. tauto. }
  split; [|split; [exact Hc|]].
  - intros E. destruct df as [|r0 t]; [congruence|].
    destruct (Hmt r0 (or_introl eq_refl)) as [Hnone _].
    assert (In r0 final) by (rewrite E; now left).
    destruct (Hrows r0 H) as [r1 [_ [_ [_ Hsome]]]]. congruence.
  - intros r Hr. destruct (Hrows r Hr) as [r0 [_ [Hv [Hcel Hsc]]]].
    assert (Hp : produto r = produto r0).
    { unfold produto, celulas in *. inversion Hcel. congruence. }
    destruct (score_valido_Fin r0 Hv) as [x [y [Hx [Hy Hxy]]]].
    assert (Hcv : cv r = Fin x).
    { unfold celulas in Hcel. inversion Hcel. congruence. }
    assert (Hac : autocorr_max_diff r = Fin y).
    { unfold celulas in Hcel. inversion Hcel. congruence. }
    rewrite Hp, Hsc, Hxy, Hcv, Hac. auto.
Qed.

Lemma detectar_anomalias_muta_witness :
  snd (detectar_anomalias
         [mkMetrica "A" (Fin 0) 0 PInf None None;
          mkMetrica "B" (Fin 3) 1 (Fin 2) None None]
         (Fin 3))
  <> [mkMetrica "A" (Fin 0) 0 PInf None None;
      mkMetrica "B" (Fin 3) 1 (Fin 2) None None]
  /\ map celulas
         (snd (detectar_anomalias
                 [mkMetrica "A" (Fin 0) 0 PInf None None;
                  mkMetrica "B" (Fin 3) 1 (Fin 2) None None]
                 (Fin 3)))
     = [("B"%string, Fin 3, 1, Fin 2)].
Proof.
  destruct (detectar_anomalias_muta
              [mkMetrica "A" (Fin 0) 0 PInf None None;
               mkMetrica "B" (Fin 3) 1 (Fin 2) None None]
              (Fin 3)) as [H1 [H2 _]].
  - discriminate.
  - intros r [<- | [<- | []]]; split; reflexivity.
  - split; [exact H1|]. rewrite H2, validos_exemplo. reflexivity.
Defined.

End DetectarClaims.

(** * More on densification *)

Section DensifyMore.
Import Loader.

Lemma extrair_dados_Ok_NoDup (df g : DataFrame) :
  extrair_dados df = Ok g -> NoDup (map chave df).
Proof.
  intros H. destruct df as [|r t]; [constructor|].
  unfold extrair_dados, reindex in H. rewrite set_index_keys in H.
  destruct (is_unique (map chave (r :: t))) eqn:E; [|discriminate].
  now apply is_unique_NoDup.
Qed.

Lemma set_index_In (df : DataFrame) (r : Linha) :
  In r df -> In (chave r, QTD r) (set_index df).
Proof. intros H. unfold set_index. now apply (in_map (fun r => (chave r, QTD r))). Qed.




End DensifyMore.

Section DensifyIdempotent.
Import Loader.

Lemma NoDup_list_prod {A B : Type} (a : list A) (b : list B) :
  NoDup a -> NoDup b -> NoDup (list_prod a b).
Proof.
  intros Ha Hb. induction Ha as [|x a Hx Ha IH]; simpl; [constructor|].
  apply NoDup_app.
  - apply Finite.Injective_map_NoDup; [|exact Hb].
    intros y z H. now inversion H.
  - exact IH.
  - intros [x' y] H1 H2. apply in_map_iff in H1.
    destruct H1 as [z [E _]]. inversion E; subst.
    apply in_prod_iff in H2. tauto.
Qed.

Lemma filter_filter {A : Type} (f g : A -> bool) (l : list A) :
  filter f (filter g l) = filter (fun x => g x && f x) l.
Proof.
  induction l as [|x t IH]; simpl; [reflexivity|].
  destruct (g x); simpl; [destruct (f x)|]; now rewrite IH.
Qed.

Lemma unique_app (a b : list string) :
  unique (a ++ b)
  = unique a
    ++ filter (fun y => negb (existsb (fun x => String.eqb x y) a))
              (unique b).
Proof.
  induction a as [|x a IH]; simpl.
  - symmetry. apply forallb_filter_id. now apply forallb_forall.
  - f_equal. rewrite IH, filter_app, filter_filter. f_equal.
    apply filter_ext. intros y. now rewrite negb_orb, andb_comm.
Qed.

Lemma unique_NoDup_id (a : list string) : NoDup a -> unique a = a.
Proof.
  induction 1 as [|x a Hx Ha IH]; simpl; [reflexivity|].
  rewrite IH. f_equal. apply forallb_filter_id. apply forallb_forall.
  intros y Hy. apply negb_true_iff, String.eqb_neq. congruence.
Qed.

Lemma unique_app_incl (a b : list string) :
  NoDup a -> incl b a -> unique (a ++ b) = a.
Proof.
  intros Ha Hb. rewrite unique_app, (unique_NoDup_id a Ha).
  destruct (filter _ (unique b)) as [|y t] eqn:E; [apply app_nil_r|].
  exfalso.
  assert (Hy : In y (filter
                       (fun y => negb (existsb (fun x => String.eqb x y) a))
                       (unique b))) by (rewrite E; now left).
  apply filter_In in Hy. destruct Hy as [Hin Hf].
  apply (proj1 (unique_In _ _)) in Hin. apply Hb in Hin.
  apply negb_true_iff in Hf.
  assert (existsb (fun x => String.eqb x y) a = true).
  { apply existsb_exists. exists y. split; [exact Hin|].
    apply String.eqb_refl. }
  congruence.
Qed.

Lemma serie_min_unico (l : list Z) (m : Z) :
  In m l -> (forall y, In y l -> m <= y) -> serie_min l = m.
Proof.
  intros Hin Hle.
  assert (Hne : l <> []) by (destruct l; [contradiction | discriminate]).
  destruct (serie_min_spec l Hne) as [H1 H2].
  specialize (H2 m Hin). specialize (Hle _ H1). lia.
Qed.

Lemma serie_max_unico (l : list Z) (m : Z) :
  In m l -> (forall y, In y l -> y <= m) -> serie_max l = m.
Proof.
  intros Hin Hle.
  assert (Hne : l <> []) by (destruct l; [contradiction | discriminate]).
  destruct (serie_max_spec l Hne) as [H1 H2].
  specialize (H2 m Hin). specialize (Hle _ H1). lia.
Qed.

Lemma grade_chaves (df : DataFrame) :
  map chave (grade df)
  = from_product
      (date_range (serie_min (map MINUTO df)) (serie_max (map MINUTO df)))
      (unique (map CD_OPR df)).
Proof.
  unfold grade. rewrite map_map. rewrite <- map_id. apply map_ext.
  now intros [m op].
Qed.

Lemma grade_chaves_NoDup (df : DataFrame) : NoDup (map chave (grade df)).
Proof.
  rewrite grade_chaves. apply NoDup_list_prod.
  - apply date_range_NoDup.
  - apply unique_NoDup.
Qed.

Lemma map_snd_prod_incl (ms : list Z) (ops : list string) :
  incl (map snd (list_prod ms ops)) ops.
Proof.
  intros y H. apply in_map_iff in H. destruct H as [[m op] [<- H]].
  apply in_prod_iff in H. tauto.
Qed.

Lemma map_fst_prod_In (ms : list Z) (ops : list string) (m : Z) :
  ops <> [] -> In m (map fst (list_prod ms ops)) <-> In m ms.
Proof.
  intros Hne. rewrite in_map_iff. split.
  - intros [[m' op] [<- H]]. apply in_prod_iff in H. tauto.
  - intros H. destruct ops as [|op ops]; [congruence|].
    exists (m, op). split; [reflexivity|]. apply in_prod_iff.
    split; [exact H | now left].
Qed.

Lemma grade_nao_vazia (df : DataFrame) :
  df <> [] ->
  unique (map CD_OPR df) <> []
  /\ serie_min (map MINUTO df) <= serie_max (map MINUTO df).
Proof.
  intros Hne. destruct df as [|r t]; [congruence|]. split.
  - simpl. discriminate.
  - assert (H : map MINUTO (r :: t) <> []) by discriminate.
    destruct (serie_min_spec _ H) as [_ H1].
    destruct (serie_max_spec _ H) as [_ H2].
    specialize (H1 (MINUTO r) (or_introl eq_refl)).
    specialize (H2 (MINUTO r) (or_introl eq_refl)). lia.
Qed.

Lemma grade_operadores (df : DataFrame) :
  df <> [] -> unique (map CD_OPR (grade df)) = unique (map CD_OPR df).
Proof.
  intros Hne. destruct (grade_nao_vazia df Hne) as [_ Hle].
  assert (E : map CD_OPR (grade df) = map snd (map chave (grade df))).
  { rewrite map_map. reflexivity. }
  rewrite E, grade_chaves. unfold from_product, date_range.
  replace (Z.to_nat (serie_max (map MINUTO df) - serie_min (map MINUTO df) + 1))
    with (S (Z.to_nat (serie_max (map MINUTO df) - serie_min (map MINUTO df))))
    by lia.
  simpl. rewrite map_app, map_map. simpl. rewrite map_id.
  apply unique_app_incl; [apply unique_NoDup | apply map_snd_prod_incl].
Qed.

Lemma grade_minutos (df : DataFrame) (m : Z) :
  df <> [] ->
  In m (map MINUTO (grade df))
  <-> serie_min (map MINUTO df) <= m <= serie_max (map MINUTO df).
Proof.
  intros Hne. destruct (grade_nao_vazia df Hne) as [Hops _].
  assert (E : map MINUTO (grade df) = map fst (map chave (grade df))).
  { rewrite map_map. reflexivity. }
  rewrite E, grade_chaves. unfold from_product.
  rewrite (map_fst_prod_In _ _ m Hops). apply date_range_In.
Qed.

Lemma grade_idempotente (df : DataFrame) :
  df <> [] -> NoDup (map chave df) -> grade (grade df) = grade df.
Proof.
  intros Hne Hnd. destruct (grade_nao_vazia df Hne) as [Hops Hle].
  unfold grade at 1.
  rewrite (grade_operadores df Hne).
  rewrite (serie_min_unico (map MINUTO (grade df)) (serie_min (map MINUTO df))),
          (serie_max_unico (map MINUTO (grade df)) (serie_max (map MINUTO df))).
  - unfold grade at 2. apply map_ext_in. intros [m op] Hk. f_equal.
    simpl.
    rewrite (get_loc_Some (m, op) (fillna0 (get_loc (m, op) (set_index df))));
      [reflexivity | |].
    + rewrite set_index_keys. apply grade_chaves_NoDup.
    + apply (set_index_In (grade df)
               (mkLinha m op (fillna0 (get_loc (m, op) (set_index df))))).
      unfold grade. apply in_map_iff. exists (m, op). auto.
  - apply grade_minutos; [exact Hne | lia].
  - intros y Hy. apply (grade_minutos df y Hne) in Hy. lia.
  - apply grade_minutos; [exact Hne | lia].
  - intros y Hy. apply (grade_minutos df y Hne) in Hy. lia.
Qed.

(** Densification is idempotent: a frame returned by [extrair_dados] has
    each (minute, operator) pair exactly once, and densifying it again
    succeeds and returns it unchanged. *)
Theorem extrair_dados_idempotente (df g : DataFrame) :
  extrair_dados df = Ok g ->
  NoDup (map chave g) /\ extrair_dados g = Ok g.
Proof.
  intros Hg. pose proof (extrair_dados_Ok_NoDup df g Hg) as Hnd.
  apply extrair_dados_Ok in Hg. subst g.
  split; [apply grade_chaves_NoDup|].
  destruct df as [|r t]; [reflexivity|].
  assert (Hne : r :: t <> []) by discriminate.
  rewrite extrair_dados_unico.
  - now rewrite grade_idempotente.
  - destruct (grade_nao_vazia _ Hne) as [Hops Hle].
    intros E.
    assert (H : In (serie_min (map MINUTO (r :: t)))
                   (map MINUTO (grade (r :: t)))).
    { apply grade_minutos; [exact Hne | lia]. }
    rewrite E in H. contradiction.
  - apply grade_chaves_NoDup.
Qed.

Lemma extrair_dados_idempotente_witness :
  extrair_dados
    (grade [mkLinha 0 "A" 3; mkLinha 2 "A" 1; mkLinha 1 "B" 4])
  = Ok (grade [mkLinha 0 "A" 3; mkLinha 2 "A" 1; mkLinha 1 "B" 4]).
Proof.
  apply (extrair_dados_idempotente
           [mkLinha 0 "A" 3; mkLinha 2 "A" 1; mkLinha 1 "B" 4]).
  reflexivity.
Defined.

End DensifyIdempotent.

(** * Densification preserves the totals *)

Section DensifyTotals.
Import Loader.

Lemma soma_int_app (a b : list Z) : soma_int (a ++ b) = soma_int a + soma_int b.
Proof.
  unfold soma_int. induction a as [|x a IH]; simpl; [reflexivity|].
  rewrite IH. lia.
Qed.





Lemma filter_map_comm {A B : Type} (f : B -> bool) (h : A -> B)
    (l : list A) :
  filter f (map h l) = map h (filter (fun x => f (h x)) l).
Proof.
  induction l as [|x t IH]; simpl; [reflexivity|].
  destruct (f (h x)); simpl; now rewrite IH.
Qed.





End DensifyTotals.

(** * Further properties of the autocorrelation metric *)

Section AutocorrMore.
Import Float.

Lemma diff_translada (c : Z) (serie : list Z) :
  Np.diff (map (Z.add c) serie) = Np.diff serie.
Proof.
  induction serie as [|x t IH]; [reflexivity|].
  destruct t as [|y t]; [reflexivity|].
  change (Np.diff (map (Z.add c) (x :: y :: t)))
    with (Np.wrap64 ((c + y) - (c + x)) :: Np.diff (map (Z.add c) (y :: t))).
  change (Np.diff (x :: y :: t))
    with (Np.wrap64 (y - x) :: Np.diff (y :: t)).
  rewrite IH. f_equal. f_equal. lia.
Qed.

(** Differencing removes the level of the series: adding the same constant
    to every value changes neither the maximum autocorrelation nor its
    lag. *)
Theorem calcula_autocorr_diff_translada (c : Z) (serie : list Z)
    (nlags : Z) :
  Metrics.calcula_autocorr_diff (map (Z.add c) serie) nlags
  = Metrics.calcula_autocorr_diff serie nlags.
Proof.
  unfold Metrics.calcula_autocorr_diff.
  now rewrite diff_translada, length_map.
Qed.

(** With no lag requested ([nlags = 0]) the autocorrelation function has
    lag 0 only, and the result is (0, 0) whatever the series. *)
Theorem calcula_autocorr_diff_sem_lags (serie : list Z) :
  Metrics.calcula_autocorr_diff serie 0 = (zero, 0).
Proof.
  unfold Metrics.calcula_autocorr_diff.
  destruct (List.length serie <? 2)%nat; [reflexivity|].
  destruct (List.length (Np.diff serie) <? 2)%nat eqn:E; [reflexivity|].
  destruct (Metrics.diff_constante (Np.diff serie)); [reflexivity|].
  simpl orb. cbv iota.
  apply Nat.ltb_ge in E.
  replace (Z.min 0 (Z.of_nat (List.length (Np.diff serie)) - 1)) with 0
    by lia.
  pose proof (acf_length (Metrics.to_float (Np.diff serie)) 0) as H.
  unfold Metrics.to_float in H at 1. rewrite length_map in H.
  specialize (H ltac:(lia)).
  destruct (Np.acf (Metrics.to_float (Np.diff serie)) 0) as [|a [|b t]];
    simpl in H; try lia.
  reflexivity.
Qed.

End AutocorrMore.

(** * The autocorrelation is at most 1 in absolute value *)

Section AutocorrBound.
Import Float.
Local Open Scope R_scope.










End AutocorrBound.

Section AutocorrRange.
Import Float.
Local Open Scope R_scope.

Lemma lista_Fin (P : R -> Prop) (l : list float) :
  (forall x, In x l -> exists r, x = Fin r /\ P r) ->
  exists rs, l = map Fin rs /\ forall r, In r rs -> P r.
Proof.
  induction l as [|x t IH]; intros H.
  - exists []. split; [reflexivity | simpl; tauto].
  - destruct (H x (or_introl eq_refl)) as [r [-> Hr]].
    destruct IH as [rs [-> Hrs]]; [intros y Hy; apply H; now right|].
    exists (r :: rs). split; [reflexivity|].
    intros r' [<- | Hr']; auto.
Qed.



End AutocorrRange.

(** * Coefficient of variation of a series of counts *)

Section CvMore.
Import Float.
Local Open Scope R_scope.

Lemma soma_nonneg (l : list R) :
  (forall x, In x l -> 0 <= x) -> 0 <= Mat.soma l.
Proof.
  induction l as [|x t IH]; intros H; simpl; [lra|].
  specialize (IH (fun y Hy => H y (or_intror Hy))).
  specialize (H x (or_introl eq_refl)). lra.
Qed.

Lemma soma_zero_nonneg (l : list R) :
  (forall x, In x l -> 0 <= x) -> Mat.soma l = 0 ->
  forall x, In x l -> x = 0.
Proof.
  induction l as [|y t IH]; intros H Hs x Hx; [contradiction|].
  simpl in Hs.
  pose proof (soma_nonneg t (fun z Hz => H z (or_intror Hz))) as Ht.
  pose proof (H y (or_introl eq_refl)) as Hy.
  destruct Hx as [<- | Hx]; [lra|].
  apply IH; [intros z Hz; apply H; now right | lra | exact Hx].
Qed.

Lemma calcula_cv_Fin (serie : list Z) :
  serie <> [] -> Mat.media serie <> 0 ->
  Metrics.calcula_cv serie
  = Fin (Mat.desvio_padrao serie / Mat.media serie * 100).
Proof.
  intros Hne Hm. unfold Metrics.calcula_cv.
  rewrite (mean_serie serie Hne), (std_serie serie Hne).
  unfold zero. simpl feqb.
  pose proof Hm as H'. apply Reqb_false in H'. rewrite H'.
  now rewrite fdiv_Fin by exact Hm.
Qed.

Lemma calcula_cv_PInf (serie : list Z) :
  serie <> [] -> Mat.media serie = 0 -> Metrics.calcula_cv serie = PInf.
Proof.
  intros Hne Hm. unfold Metrics.calcula_cv.
  rewrite (mean_serie serie Hne). unfold zero. simpl feqb.
  apply Reqb_true in Hm. now rewrite Hm.
Qed.

Lemma cv_contagens (serie : list Z) :
  serie <> [] ->
  (forall x, In x serie -> (0 <= x)%Z) ->
  (Metrics.calcula_cv serie = PInf <-> forall x, In x serie -> x = 0%Z)
  /\ ((exists x, In x serie /\ x <> 0%Z) ->
      exists v, Metrics.calcula_cv serie = Fin v /\ 0 <= v).
Proof.
  intros Hne Hpos.
  assert (Hr : forall x, In x (Mat.reais serie) -> 0 <= x).
  { intros x Hx. unfold Mat.reais in Hx. apply in_map_iff in Hx.
    destruct Hx as [z [<- Hz]]. apply IZR_le. now apply Hpos. }
  pose proof (soma_nonneg _ Hr) as Hs.
  pose proof (INR_length_neq0 serie Hne) as Hn.
  assert (Hn' : 0 < INR (List.length serie)).
  { pose proof (pos_INR (List.length serie)). lra. }
  assert (Hm : 0 <= Mat.media serie).
  { unfold Mat.media. apply Rmult_le_pos; [exact Hs|].
    left. now apply Rinv_0_lt_compat. }
  assert (Hzero : Mat.media serie = 0 -> forall x, In x serie -> x = 0%Z).
  { intros H0 x Hx. apply eq_IZR.
    apply (soma_zero_nonneg _ Hr).
    - unfold Mat.media in H0.
      apply (Rmult_eq_compat_r (INR (List.length serie))) in H0.
      unfold Rdiv in H0. rewrite Rmult_assoc, Rinv_l in H0 by exact Hn. lra.
    - unfold Mat.reais. now apply in_map. }
  assert (Hfin : Mat.media serie <> 0 ->
                 exists v, Metrics.calcula_cv serie = Fin v /\ 0 <= v).
  { intros H0. rewrite (calcula_cv_Fin serie Hne H0).
    eexists. split; [reflexivity|].
    apply Rmult_le_pos; [|lra]. apply Rmult_le_pos.
    - unfold Mat.desvio_padrao. apply sqrt_pos.
    - left. apply Rinv_0_lt_compat. lra. }
  split; [split|].
  - intros Hinf. destruct (Req_dec_T (Mat.media serie) 0) as [H0 | H0].
    + now apply Hzero.
    + destruct (Hfin H0) as [v [Hv _]]. congruence.
  - intros Hall. apply calcula_cv_PInf; [exact Hne|].
    rewrite (media_constante 0%Z serie Hne Hall). reflexivity.
  - intros [x [Hx Hx0]]. apply Hfin. intros H0.
    apply Hx0. now apply Hzero.
Qed.

(** For a non-empty series of non-negative counts, the coefficient of
    variation is +infinity exactly when every count is 0, and otherwise a
    finite non-negative number. *)
Theorem calcula_cv_contagens (serie : list Z) :
  serie <> [] ->
  (forall x, In x serie -> (0 <= x)%Z) ->
  (Metrics.calcula_cv serie = PInf <-> forall x, In x serie -> x = 0%Z)
  /\ ((exists x, In x serie /\ x <> 0%Z) ->
      exists v, Metrics.calcula_cv serie = Fin v /\ 0 <= v).
Proof. exact (cv_contagens serie). Qed.

Lemma calcula_cv_contagens_witness :
  exists v, Metrics.calcula_cv [0; 4; 0; 2]%Z = Fin v /\ 0 <= v.
Proof.
  apply (calcula_cv_contagens [0; 4; 0; 2]%Z).
  - discriminate.
  - simpl. intros x [H | [H | [H | [H | []]]]]; subst; lia.
  - exists 4%Z. simpl. split; [auto | discriminate].
Defined.

End CvMore.

(** * Median and MAD of finite values *)

Section MedianFacts.
Import Float.
Local Open Scope R_scope.

Lemma existsb_isnan_Fin (rs : list R) : existsb isnan (map Fin rs) = false.
Proof. induction rs as [|r rs IH]; simpl; [reflexivity | exact IH]. Qed.

Lemma mean_dois (a b : R) : Np.mean [Fin a; Fin b] = Fin ((a + b) / 2).
Proof.
  unfold Np.mean, Np.sum, of_nat, zero. simpl fold_left. simpl List.length.
  rewrite fdiv_Fin by (simpl; lra). f_equal. simpl. field.
Qed.

(** The median of finite values is finite and has every property that all
    the values have and that is kept by the midpoint of two values. *)
Lemma median_Fin (P : R -> Prop) (l : list float) :
  l <> [] ->
  (forall x, In x l -> exists r, x = Fin r /\ P r) ->
  (forall a b, P a -> P b -> P ((a + b) / 2)) ->
  exists m, Np.median l = Fin m /\ P m.
Proof.
  intros Hne Hl Hmid.
  destruct (lista_Fin P l Hl) as [rs [-> Hrs]].
  unfold Np.median. rewrite existsb_isnan_Fin.
  set (s := Np.sort fleb (map Fin rs)).
  assert (Hs : forall x, In x s -> exists r, x = Fin r /\ P r).
  { intros x Hx. apply (proj1 (sort_In fleb _ _)) in Hx. now apply Hl. }
  assert (Hlen : List.length s <> 0%nat).
  { unfold s. rewrite sort_length.
    destruct rs; [now elim Hne | discriminate]. }
  assert (Hnth : forall k, (k < List.length s)%nat ->
                           exists r, nth k s NaN = Fin r /\ P r).
  { intros k Hk. apply Hs. now apply nth_In. }
  destruct (List.length s) as [|n] eqn:En; [congruence|].
  assert (H2 : (S n / 2 < S n)%nat) by (apply Nat.div_lt; lia).
  destruct (Nat.even (S n)).
  - destruct (Hnth (S n / 2 - 1)%nat ltac:(lia)) as [a [-> Ha]].
    destruct (Hnth (S n / 2)%nat H2) as [b [-> Hb]].
    rewrite mean_dois. eexists. split; [reflexivity | now apply Hmid].
  - destruct (Hnth (S n / 2)%nat H2) as [b [-> Hb]].
    exists b. auto.
Qed.

(** The MAD of finite values is a finite non-negative number. *)
Lemma robust_mad_nonneg (l : list float) :
  l <> [] ->
  (forall x, In x l -> exists r, x = Fin r) ->
  exists d, Np.robust_mad l = Fin d /\ 0 <= d.
Proof.
  intros Hne Hl. unfold Np.robust_mad.
  destruct l as [|x0 t] eqn:El; [congruence|]. rewrite <- El in *.
  destruct (median_Fin (fun _ => True) l Hne) as [c [Hc _]].
  { intros x Hx. destruct (Hl x Hx) as [r ->]. now exists r. }
  { auto. }
  rewrite Hc.
  apply (median_Fin (fun d => 0 <= d)).
  - rewrite El. discriminate.
  - intros y Hy. apply in_map_iff in Hy. destruct Hy as [x [<- Hx]].
    destruct (Hl x Hx) as [r ->]. simpl fsub. simpl fabs.
    rewrite fdiv_Fin by (pose proof mad_c_pos; lra).
    eexists. split; [reflexivity|].
    apply Rmult_le_pos; [apply Rabs_pos|].
    left. apply Rinv_0_lt_compat, mad_c_pos.
  - intros a b Ha Hb. lra.
Qed.

End MedianFacts.

(** * Order of the returned table *)

Section SortedFacts.
Context {A : Type} (le : A -> A -> bool) (Q : A -> Prop)
        (R : A -> A -> Prop).
Hypothesis le_total :
  forall x y, Q x -> Q y -> le x y = true \/ le y x = true.
Hypothesis le_R : forall x y, Q x -> Q y -> le x y = true -> R x y.

Lemma insert_HdRel (a x : A) (l : list A) :
  R a x -> HdRel R a l -> HdRel R a (Np.insert le x l).
Proof.
  intros Hax Hal. destruct l as [|y t]; simpl.
  - now constructor.
  - destruct (le y x); constructor; [now inversion Hal | exact Hax].
Qed.

Lemma insert_Sorted (x : A) (l : list A) :
  Q x -> (forall y, In y l -> Q y) ->
  Sorted R l -> Sorted R (Np.insert le x l).
Proof.
  intros Hx Hl Hs. induction l as [|y t IH]; simpl.
  - repeat constructor.
  - assert (Hy : Q y) by (apply Hl; now left).
    inversion Hs as [|? ? Hst Hhd]; subst.
    destruct (le y x) eqn:E.
    + constructor.
      * apply IH; [intros z Hz; apply Hl; now right | exact Hst].
      * apply insert_HdRel; [now apply le_R | exact Hhd].
    + constructor; [exact Hs|]. constructor.
      destruct (le_total x y Hx Hy) as [H | H]; [now apply le_R | congruence].
Qed.

Lemma sort_Sorted (l : list A) :
  (forall y, In y l -> Q y) -> Sorted R (Np.sort le l).
Proof.
  induction l as [|x t IH]; intros Hl; simpl; [constructor|].
  apply insert_Sorted.
  - apply Hl. now left.
  - intros y Hy. apply (proj1 (sort_In le _ _)) in Hy. apply Hl. now right.
  - apply IH. intros y Hy. apply Hl. now right.
Qed.

End SortedFacts.

(** * Further properties of the detector *)

Section DetectarMore.
Import Float Anomaly.
Local Open Scope R_scope.

Lemma produto_celulas (a b : Metrica) :
  celulas a = celulas b -> produto a = produto b.
Proof. unfold celulas, produto. intros H. inversion H. congruence. Qed.

Lemma tabela_celulas (v : Metricas) (sigma : float) :
  Permutation (map celulas (tabela (fst (classificar (set_score v) sigma))))
              (map celulas v).
Proof.
  rewrite (Permutation_map celulas (classificar_tabela _ _)).
  destruct (classificar_estado_linhas (set_score v) sigma) as [-> _].
  now rewrite set_score_celulas.
Qed.

Lemma tabela_linha_de (v : Metricas) (sigma : float) (r0 : Metrica) :
  In r0 v ->
  exists r, In r (tabela (fst (classificar (set_score v) sigma)))
            /\ celulas r = celulas r0.
Proof.
  intros H0.
  assert (H : In (celulas r0)
                 (map celulas
                      (tabela (fst (classificar (set_score v) sigma))))).
  { apply (Permutation_in _ (Permutation_sym (tabela_celulas v sigma))).
    now apply in_map. }
  apply in_map_iff in H. destruct H as [r [E Hr]]. now exists r.
Qed.

Lemma scores_validos_Fin (df : Metricas) (x : float) :
  In x (map produto (filter score_valido df)) -> exists r, x = Fin r.
Proof.
  intros H. apply in_map_iff in H. destruct H as [r0 [<- H0]].
  apply filter_In in H0. destruct H0 as [_ Hv].
  destruct (score_valido_Fin r0 Hv) as [a [b [_ [_ ->]]]]. eauto.
Qed.

Lemma series_median_Fin (l : list float) :
  (forall x, In x l -> exists r, x = Fin r) -> series_median l = Np.median l.
Proof.
  intros H. unfold series_median. rewrite forallb_filter_id; [reflexivity|].
  apply forallb_forall. intros x Hx. now destruct (H x Hx) as [r ->].
Qed.

(** With at least one finite score, the median returned is a finite number
    with every midpoint-closed property of the finite scores, and the MAD
    is finite and non-negative. *)
Lemma retorno_finito (P : R -> Prop) (df : Metricas) (sigma : float) :
  filter score_valido df <> [] ->
  (forall r0, In r0 df -> score_valido r0 = true ->
              exists x, produto r0 = Fin x /\ P x) ->
  (forall a b, P a -> P b -> P ((a + b) / 2)) ->
  let ret := fst (detectar_anomalias df sigma) in
  exists m d, mediana ret = Fin m /\ P m /\ mad ret = Fin d /\ 0 <= d.
Proof.
  intros Hne HP Hmid ret.
  set (validos := filter score_valido df) in *.
  assert (Hret : ret = fst (classificar (set_score validos) sigma))
    by apply detectar_anomalias_retorno.
  destruct (classificar_mediana_mad validos sigma) as [Hmed Hmad].
  rewrite <- Hret in Hmed, Hmad.
  assert (Hl : map produto validos <> []).
  { destruct validos; [congruence | discriminate]. }
  destruct (median_Fin P (map produto validos) Hl) as [m [Hm HPm]].
  { intros x Hx. apply in_map_iff in Hx. destruct Hx as [r0 [<- H0]].
    unfold validos in H0. apply filter_In in H0. now apply HP. }
  { exact Hmid. }
  destruct (robust_mad_nonneg (map produto validos) Hl) as [d [Hd Hd0]].
  { intros x Hx. now apply (scores_validos_Fin df). }
  exists m, d. rewrite Hmed, Hmad.
  rewrite series_median_Fin
    by (intros x Hx; now apply (scores_validos_Fin df)).
  unfold Metrics.calcula_mad. auto.
Qed.

Lemma linha_classificada_Fin (f : Metrica -> bool) (v : Metricas)
    (r : Metrica) :
  (forall r0, In r0 v -> score_valido r0 = true) ->
  In r (set_anormal f (set_score v)) ->
  exists x, score r = Fin x /\ produto r = Fin x.
Proof.
  intros Hv Hr. unfold set_anormal, set_score in Hr. rewrite map_map in Hr.
  apply in_map_iff in Hr. destruct Hr as [r0 [<- H0]].
  destruct (score_valido_Fin r0 (Hv r0 H0)) as [a [b [Ha [Hb Hp]]]].
  exists (a * b). unfold score, produto in *. simpl. rewrite Ha, Hb. auto.
Qed.

Lemma sort_desc_Sorted (l : Metricas) :
  (forall r, In r l -> exists x, score r = Fin x /\ produto r = Fin x) ->
  Sorted (fun a b => exists x y,
              produto a = Fin x /\ produto b = Fin y /\ y <= x)
         (sort_desc l).
Proof.
  intros H. unfold sort_desc.
  apply (sort_Sorted _
           (fun r => exists x, score r = Fin x /\ produto r = Fin x)).
  - intros a b [x [Hx _]] [y [Hy _]]. rewrite Hx, Hy.
    destruct (Rle_dec y x) as [Hle | Hgt].
    + left. now apply fleb_Fin.
    + right. apply fleb_Fin. lra.
  - intros a b [x [Hx Hpx]] [y [Hy Hpy]] Hle. rewrite Hx, Hy in Hle.
    apply fleb_Fin in Hle. exists x, y. auto.
  - exact H.
Qed.

(** The returned table is in decreasing order of score: each row has a
    finite score that is at least the score of the next row. It holds the
    same rows as the caller's frame after the call, which is left in its
    own order. *)
Theorem detectar_anomalias_ordenada (df : Metricas) (sigma : float) :
  Sorted (fun a b => exists x y,
              produto a = Fin x /\ produto b = Fin y /\ y <= x)
         (tabela (fst (detectar_anomalias df sigma)))
  /\ Permutation (tabela (fst (detectar_anomalias df sigma)))
                 (snd (detectar_anomalias df sigma)).
Proof.
  rewrite detectar_anomalias_classificar.
  destruct df as [|r0 t]; [split; constructor|].
  split; [|apply classificar_tabela].
  set (validos := filter score_valido (r0 :: t)).
  assert (Hv : forall r, In r validos -> score_valido r = true).
  { intros r Hr. unfold validos in Hr. now apply filter_In in Hr. }
  unfold classificar.
  destruct (set_score validos) as [|r1 t1] eqn:E; [constructor|].
  rewrite <- E.
  destruct (feqb _ zero); cbv zeta; unfold fst, tabela;
    apply sort_desc_Sorted; intros r Hr;
    eapply linha_classificada_Fin; eassumption.
Qed.

(** The flag of a row of the table, in terms of real numbers. *)
Lemma flag_real (df : Metricas) (s : R) (r : Metrica) :
  let ret := fst (detectar_anomalias df (Fin s)) in
  In r (tabela ret) ->
  exists x m d,
    produto r = Fin x /\ mediana ret = Fin m /\ mad ret = Fin d /\ 0 <= d
    /\ anormal r = Some (if Reqb d 0 then false else Rltb (m + s * d) x).
Proof.
  intros ret Hr.
  set (validos := filter score_valido df) in *.
  assert (Hret : ret = fst (classificar (set_score validos) (Fin s)))
    by apply detectar_anomalias_retorno.
  pose proof Hr as Hr'. rewrite Hret in Hr'.
  apply linhas_classificadas in Hr'.
  destruct Hr' as [r0 [H0 [Hc Hs]]].
  assert (Hv : score_valido r0 = true).
  { unfold validos in H0. now apply filter_In in H0. }
  destruct (score_valido_Fin r0 Hv) as [a [b [_ [_ Hp]]]].
  assert (Hne : validos <> []) by (intros E; rewrite E in H0; contradiction).
  destruct (retorno_finito (fun _ => True) df (Fin s) Hne) as [m [d H]].
  { intros r1 _ H1. destruct (score_valido_Fin r1 H1) as [a1 [b1 [_ [_ ->]]]].
    eauto. }
  { auto. }
  fold ret in H. destruct H as [Hm [_ [Hd Hd0]]].
  exists (a * b), m, d.
  rewrite (produto_celulas r r0 Hc), Hp.
  do 4 (split; [assumption || reflexivity|]).
  destruct (classificar_limite (set_score validos) (Fin s)) as [Hz Hnz].
  rewrite <- Hret in Hz, Hnz.
  destruct (Req_dec_T d 0) as [E | E].
  - rewrite (proj2 (Reqb_true d 0) E). subst d.
    destruct (Hz Hd) as [_ Hf]. now apply Hf.
  - rewrite (proj2 (Reqb_false d 0) E).
    assert (Hmz : mad ret <> zero).
    { rewrite Hd. unfold zero. intros H. inversion H. contradiction. }
    destruct (Hnz Hmz) as [Hl Hf]. rewrite (Hf r Hr), Hl, Hm, Hd.
    unfold score. rewrite Hs, Hp. reflexivity.
Qed.

(** For a non-negative threshold multiplier, a flagged row has a score
    strictly above the median of the finite scores. *)
Theorem detectar_anomalias_acima_da_mediana (df : Metricas) (s : R)
    (r : Metrica) :
  0 <= s ->
  In r (tabela (fst (detectar_anomalias df (Fin s)))) ->
  anormal r = Some true ->
  exists x m,
    produto r = Fin x
    /\ mediana (fst (detectar_anomalias df (Fin s))) = Fin m
    /\ m < x.
Proof.
  intros Hs Hr Ha.
  destruct (flag_real df s r Hr) as [x [m [d [Hx [Hm [_ [Hd Hf]]]]]]].
  exists x, m. split; [exact Hx|]. split; [exact Hm|].
  rewrite Ha in Hf. destruct (Reqb d 0); [discriminate|].
  inversion Hf as [Hlt]. symmetry in Hlt. apply Rltb_true in Hlt. nra.
Qed.

(** For a non-negative threshold multiplier, a row whose score is the
    smallest of the table is never flagged: the detector cannot flag every
    operator. *)
Theorem detectar_anomalias_minimo_normal (df : Metricas) (s : R)
    (r : Metrica) (x : R) :
  0 <= s ->
  In r (tabela (fst (detectar_anomalias df (Fin s)))) ->
  produto r = Fin x ->
  (forall r' x', In r' (tabela (fst (detectar_anomalias df (Fin s)))) ->
                 produto r' = Fin x' -> x <= x') ->
  anormal r = Some false.
Proof.
  intros Hs Hr Hx Hmin.
  destruct (flag_real df s r Hr) as [x1 [m [d [Hx1 [Hm [_ [Hd Hf]]]]]]].
  rewrite Hx in Hx1. inversion Hx1; subst x1.
  rewrite Hf. f_equal. destruct (Reqb d 0); [reflexivity|].
  apply Rltb_false.
  set (validos := filter score_valido df) in *.
  assert (Hne : validos <> []).
  { intros E.
    rewrite detectar_anomalias_retorno in Hr. fold validos in Hr.
    rewrite E in Hr. contradiction. }
  destruct (retorno_finito (fun m => x <= m) df (Fin s) Hne) as [m' [d' H]].
  { intros r0 H0 Hv.
    assert (Hin : In r0 validos) by (apply filter_In; auto).
    destruct (tabela_linha_de validos (Fin s) r0 Hin) as [r' [Hr' Hc]].
    unfold validos in Hr'. rewrite <- detectar_anomalias_retorno in Hr'.
    destruct (score_valido_Fin r0 Hv) as [a [b [_ [_ Hp]]]].
    exists (a * b). split; [exact Hp|].
    apply (Hmin r' (a * b) Hr').
    now rewrite (produto_celulas r' r0 Hc). }
  { intros a b Ha Hb. lra. }
  destruct H as [Hm' [Hxm _]]. rewrite Hm in Hm'. inversion Hm'; subst m'.
  nra.
Qed.

(** A larger threshold multiplier flags fewer rows: a row flagged with
    [s2] is flagged with every [s1 <= s2]. *)
Theorem detectar_anomalias_monotona (df : Metricas) (s1 s2 : R)
    (r2 : Metrica) :
  s1 <= s2 ->
  In r2 (tabela (fst (detectar_anomalias df (Fin s2)))) ->
  anormal r2 = Some true ->
  exists r1,
    In r1 (tabela (fst (detectar_anomalias df (Fin s1))))
    /\ celulas r1 = celulas r2
    /\ anormal r1 = Some true.
Proof.
  intros Hs Hr2 Ha.
  destruct (flag_real df s2 r2 Hr2) as [x [m [d [Hx [Hm [Hd [Hd0 Hf]]]]]]].
  set (validos := filter score_valido df) in *.
  pose proof Hr2 as H2. rewrite detectar_anomalias_retorno in H2.
  apply linhas_classificadas in H2. destruct H2 as [r0 [H0 [Hc _]]].
  destruct (tabela_linha_de validos (Fin s1) r0 H0) as [r1 [Hr1 Hc1]].
  unfold validos in Hr1. rewrite <- detectar_anomalias_retorno in Hr1.
  exists r1. split; [exact Hr1|]. split; [congruence|].
  destruct (flag_real df s1 r1 Hr1)
    as [x1 [m1 [d1 [Hx1 [Hm1 [Hd1 [_ Hf1]]]]]]].
  assert (Ex : x1 = x).
  { rewrite (produto_celulas r1 r0 Hc1), <- (produto_celulas r2 r0 Hc) in Hx1.
    rewrite Hx in Hx1. now inversion Hx1. }
  assert (Em : m1 = m /\ d1 = d).
  { destruct (classificar_mediana_mad validos (Fin s1)) as [A1 B1].
    destruct (classificar_mediana_mad validos (Fin s2)) as [A2 B2].
    unfold validos in A1, B1, A2, B2.
    rewrite <- detectar_anomalias_retorno in A1, B1, A2, B2.
    rewrite <- A2 in A1. rewrite <- B2 in B1.
    rewrite Hm, Hm1 in A1. rewrite Hd, Hd1 in B1.
    inversion A1. inversion B1. auto. }
  destruct Em as [-> ->]. subst x1.
  rewrite Hf1. rewrite Ha in Hf. f_equal.
  destruct (Reqb d 0); [discriminate|].
  inversion Hf as [Hlt]. symmetry in Hlt. apply Rltb_true in Hlt.
  apply Rltb_true. nra.
Qed.

Lemma filter_nenhum_in {A : Type} (f : A -> bool) (l : list A) :
  (forall e, In e l -> f e = false) -> filter f l = [].
Proof.
  induction l as [|e t IH]; intros H; simpl; [reflexivity|].
  rewrite (H e (or_introl eq_refl)). apply IH.
  intros e' He'. apply H. now right.
Qed.

(** When no row has a finite score (every operator has an infinite or NaN
    score), the detector returns the empty table with NaN statistics, and
    the caller's frame is left empty. *)
Theorem detectar_anomalias_sem_validos (df : Metricas) (sigma : float) :
  (forall r, In r df -> score_valido r = false) ->
  detectar_anomalias df sigma = (mkRetorno [] NaN NaN NaN, []).
Proof.
  intros H. rewrite detectar_anomalias_classificar.
  destruct df as [|r0 t]; [reflexivity|].
  now rewrite (filter_nenhum_in _ _ H).
Qed.

Lemma detectar_anomalias_sem_validos_witness :
  detectar_anomalias [mkMetrica "A" (Fin 0) 0 PInf None None] (Fin 3)
  = (mkRetorno [] NaN NaN NaN, []).
Proof.
  apply detectar_anomalias_sem_validos.
  intros r [<- | []]. unfold score_valido, produto. simpl.
  unfold Rltb. destruct (Rlt_dec 0 0) as [H|_]; [lra | reflexivity].
Defined.

Lemma set_anormal_set_anormal (f g : Metrica -> bool) (v : Metricas) :
  (forall r b, g (mkMetrica (CD_OPR r) (autocorr_max_diff r)
                            (autocorr_lag r) (cv r) (score_anomaly r) b)
               = g r) ->
  set_anormal g (set_anormal f v) = set_anormal g v.
Proof.
  intros H. unfold set_anormal. rewrite map_map. apply map_ext.
  intros r. simpl. now rewrite H.
Qed.

Lemma coluna_score_set_anormal (f : Metrica -> bool) (v : Metricas) :
  coluna_score (set_anormal f v) = coluna_score v.
Proof. unfold coluna_score, set_anormal. now rewrite map_map. Qed.

Lemma classificar_set_anormal (f : Metrica -> bool) (v : Metricas)
    (sigma : float) :
  classificar (set_anormal f v) sigma = classificar v sigma.
Proof.
  destruct v as [|r t]; [reflexivity|].
  unfold classificar.
  change (set_anormal f (r :: t))
    with (mkMetrica (CD_OPR r) (autocorr_max_diff r) (autocorr_lag r) (cv r)
                    (score_anomaly r) (Some (f r)) :: set_anormal f t).
  change (mkMetrica (CD_OPR r) (autocorr_max_diff r) (autocorr_lag r) (cv r)
                    (score_anomaly r) (Some (f r)) :: set_anormal f t)
    with (set_anormal f (r :: t)).
  rewrite coluna_score_set_anormal.
  destruct (feqb _ zero); cbv zeta;
    rewrite set_anormal_set_anormal; reflexivity.
Qed.

Lemma sanear_classificado (f : Metrica -> bool) (v : Metricas) :
  (forall r, In r v -> score_valido r = true) ->
  set_score (filter score_valido (set_anormal f (set_score v)))
  = set_anormal f (set_score v).
Proof.
  intros Hv. rewrite forallb_filter_id.
  - unfold set_score, set_anormal. rewrite !map_map. apply map_ext.
    reflexivity.
  - apply forallb_forall. intros r Hr.
    unfold set_anormal, set_score in Hr. rewrite map_map in Hr.
    apply in_map_iff in Hr. destruct Hr as [r0 [<- H0]].
    exact (Hv r0 H0).
Qed.

(** Detection is idempotent on the caller's frame: calling
    [detectar_anomalias] again on the frame left by a first call returns
    the same tuple and leaves the frame as it is. *)
Theorem detectar_anomalias_idempotente (df : Metricas) (sigma : float) :
  detectar_anomalias (snd (detectar_anomalias df sigma)) sigma
  = detectar_anomalias df sigma.
Proof.
  rewrite (detectar_anomalias_classificar df).
  destruct df as [|r0 t]; [reflexivity|].
  set (v := filter score_valido (r0 :: t)).
  assert (Hv : forall r, In r v -> score_valido r = true).
  { intros r Hr. unfold v in Hr. now apply filter_In in Hr. }
  destruct (classificar_estado (set_score v) sigma) as [f Hf].
  rewrite Hf. destruct (set_score v) as [|r1 t1] eqn:E.
  - destruct v; [reflexivity | discriminate].
  - rewrite <- E. rewrite detectar_anomalias_classificar.
    assert (Hne : set_anormal f (set_score v) <> []).
    { rewrite E. discriminate. }
    destruct (set_anormal f (set_score v)) as [|r2 t2] eqn:E2;
      [congruence|].
    rewrite <- E2, (sanear_classificado f v Hv).
    apply classificar_set_anormal.
Qed.

Lemma median_dois (a b : R) : Np.median [Fin a; Fin b] = Fin ((a + b) / 2).
Proof.
  unfold Np.median. simpl existsb. cbv iota. simpl Np.sort.
  destruct (fleb (Fin b) (Fin a)); simpl; rewrite mean_dois; f_equal; lra.
Qed.

Lemma robust_mad_dois (a b : R) :
  Np.robust_mad [Fin a; Fin b]
  = Fin ((Rabs (a + - ((a + b) / 2)) / Np.mad_c
          + Rabs (b + - ((a + b) / 2)) / Np.mad_c) / 2).
Proof.
  unfold Np.robust_mad. rewrite median_dois.
  cbn [map fsub fadd fopp fabs].
  rewrite !fdiv_Fin by (pose proof mad_c_pos; lra).
  apply median_dois.
Qed.

(** Two operators with scores 1 and 3 and the multiplier 0: the second is
    flagged. *)
Lemma exemplo_flag :
  exists r,
    In r (tabela
            (fst (detectar_anomalias
                    [mkMetrica "A" (Fin 1) 1 (Fin 1) None None;
                     mkMetrica "B" (Fin 1) 1 (Fin 3) None None]
                    (Fin 0))))
    /\ celulas r = ("B"%string, Fin 1, 1%Z, Fin 3)
    /\ anormal r = Some true.
Proof.
  set (df := [mkMetrica "A" (Fin 1) 1 (Fin 1) None None;
              mkMetrica "B" (Fin 1) 1 (Fin 3) None None]).
  assert (Ev : filter score_valido df = df) by reflexivity.
  destruct (tabela_linha_de (filter score_valido df) (Fin 0)
              (mkMetrica "B" (Fin 1) 1 (Fin 3) None None))
    as [r [Hr Hc]]; [rewrite Ev; simpl; auto|].
  rewrite <- detectar_anomalias_retorno in Hr.
  exists r. split; [exact Hr|]. split; [exact Hc|].
  destruct (flag_real df 0 r Hr) as [x [m [d [Hx [Hm [Hd [_ Hf]]]]]]].
  rewrite (produto_celulas _ _ Hc) in Hx. unfold produto in Hx. simpl in Hx.
  inversion Hx; subst x. clear Hx.
  destruct (classificar_mediana_mad (filter score_valido df) (Fin 0))
    as [A B].
  rewrite <- detectar_anomalias_retorno in A, B.
  rewrite Hm in A. rewrite Hd in B. rewrite Ev in A, B.
  change (map produto df) with [Fin (1 * 1); Fin (3 * 1)] in A, B.
  change (series_median [Fin (1 * 1); Fin (3 * 1)])
    with (Np.median [Fin (1 * 1); Fin (3 * 1)]) in A.
  unfold Metrics.calcula_mad in B.
  rewrite median_dois in A. rewrite robust_mad_dois in B.
  inversion A; subst m. inversion B; subst d. clear A B.
  rewrite Hf. f_equal.
  pose proof mad_c_pos as Hc0.
  assert (E1 : Rabs (1 * 1 + - ((1 * 1 + 3 * 1) / 2)) = 1)
    by (rewrite Rabs_left; lra).
  assert (E2 : Rabs (3 * 1 + - ((1 * 1 + 3 * 1) / 2)) = 1)
    by (rewrite Rabs_right; lra).
  rewrite E1, E2.
  assert (Hinv : 0 < 1 / Np.mad_c).
  { unfold Rdiv. rewrite Rmult_1_l. now apply Rinv_0_lt_compat. }
  assert (E : Reqb ((1 / Np.mad_c + 1 / Np.mad_c) / 2) 0 = false).
  { apply Reqb_false. lra. }
  rewrite E. apply Rltb_true. lra.
Qed.

Lemma detectar_anomalias_acima_da_mediana_witness :
  exists x m,
    mediana
      (fst (detectar_anomalias
              [mkMetrica "A" (Fin 1) 1 (Fin 1) None None;
               mkMetrica "B" (Fin 1) 1 (Fin 3) None None]
              (Fin 0)))
    = Fin m
    /\ m < x.
Proof.
  destruct exemplo_flag as [r [Hr [_ Ha]]].
  destruct (detectar_anomalias_acima_da_mediana _ 0 r (Rle_refl 0) Hr Ha)
    as [x [m [_ [Hm Hlt]]]].
  exists x, m. auto.
Defined.

Lemma detectar_anomalias_monotona_witness :
  exists r1,
    In r1 (tabela
             (fst (detectar_anomalias
                     [mkMetrica "A" (Fin 1) 1 (Fin 1) None None;
                      mkMetrica "B" (Fin 1) 1 (Fin 3) None None]
                     (Fin (-1)))))
    /\ anormal r1 = Some true.
Proof.
  destruct exemplo_flag as [r [Hr [_ Ha]]].
  destruct (detectar_anomalias_monotona _ (-1) 0 r ltac:(lra) Hr Ha)
    as [r1 [H1 [_ H2]]].
  exists r1. auto.
Defined.

Lemma detectar_anomalias_minimo_normal_witness :
  exists r,
    In r (tabela
            (fst (detectar_anomalias
                    [mkMetrica "A" (Fin 1) 1 (Fin 1) None None;
                     mkMetrica "B" (Fin 1) 1 (Fin 3) None None]
                    (Fin 0))))
    /\ celulas r = ("A"%string, Fin 1, 1%Z, Fin 1)
    /\ anormal r = Some false.
Proof.
  set (df := [mkMetrica "A" (Fin 1) 1 (Fin 1) None None;
              mkMetrica "B" (Fin 1) 1 (Fin 3) None None]).
  assert (Ev : filter score_valido df = df) by reflexivity.
  destruct (tabela_linha_de (filter score_valido df) (Fin 0)
              (mkMetrica "A" (Fin 1) 1 (Fin 1) None None))
    as [r [Hr Hc]]; [rewrite Ev; simpl; auto|].
  rewrite <- detectar_anomalias_retorno in Hr.
  exists r. split; [exact Hr|]. split; [exact Hc|].
  apply (detectar_anomalias_minimo_normal df 0 r (1 * 1)).
  - lra.
  - exact Hr.
  - now rewrite (produto_celulas _ _ Hc).
  - intros r' x' Hr' Hx'.
    rewrite detectar_anomalias_retorno in Hr'.
    apply linhas_classificadas in Hr'. destruct Hr' as [r0 [H0 [Hc0 _]]].
    rewrite (produto_celulas _ _ Hc0) in Hx'. rewrite Ev in H0.
    destruct H0 as [<- | [<- | []]]; unfold produto in Hx'; simpl in Hx';
      inversion Hx'; lra.
Defined.


End DetectarMore.

(** * Which operators get a metric record, and which reach the table *)

Section PipelineFacts.
Import Float.
Local Open Scope R_scope.

Lemma groupby_chaves_NoDup (dados : Loader.DataFrame) :
  NoDup (map fst (Anomaly.groupby dados)).
Proof.
  unfold Anomaly.groupby. rewrite map_map. simpl. rewrite map_id.
  apply (Permutation_NoDup
           (Permutation_sym (sort_Permutation String.leb _))).
  apply unique_NoDup.
Qed.

Lemma groupby_grupo (dados : Loader.DataFrame) (k : string) :
  In k (map Loader.CD_OPR dados) ->
  In (k, filter (fun r => String.eqb (Loader.CD_OPR r) k) dados)
     (Anomaly.groupby dados).
Proof.
  intros Hk. unfold Anomaly.groupby.
  apply (in_map (fun k => (k, filter (fun r => String.eqb (Loader.CD_OPR r) k)
                                     dados))).
  apply sort_In. now apply unique_In.
Qed.

Lemma metricas_In (dados : Loader.DataFrame) (r : Anomaly.Metrica) :
  In r (Anomaly.calcular_metricas_por_processo dados) <->
  exists grupo,
    In (Anomaly.CD_OPR r, grupo)
       (Anomaly.groupby (Anomaly.sort_values dados))
    /\ (10 <= List.length grupo)%nat
    /\ r = Anomaly.mkMetrica
             (Anomaly.CD_OPR r)
             (fst (Metrics.calcula_autocorr_diff (map Loader.QTD grupo)
                                                 Anomaly.nlags_padrao))
             (snd (Metrics.calcula_autocorr_diff (map Loader.QTD grupo)
                                                 Anomaly.nlags_padrao))
             (Metrics.calcula_cv (map Loader.QTD grupo)) None None.
Proof.
  unfold Anomaly.calcular_metricas_por_processo. rewrite in_flat_map.
  split.
  - intros [[k grupo] [Hg Hr]]. simpl in Hr.
    unfold Anomaly.metricas_do_grupo in Hr. rewrite length_map in Hr.
    destruct (List.length grupo <? 10)%nat eqn:E; [contradiction|].
    apply Nat.ltb_ge in E.
    destruct (Metrics.calcula_autocorr_diff _ _) as [a lag] eqn:Ec.
    destruct Hr as [<- | []]. simpl. exists grupo.
    rewrite Ec. auto.
  - intros [grupo [Hg [Hlen Hr]]].
    exists (Anomaly.CD_OPR r, grupo). split; [exact Hg|].
    simpl. unfold Anomaly.metricas_do_grupo. rewrite length_map.
    apply Nat.ltb_ge in Hlen. rewrite Hlen.
    destruct (Metrics.calcula_autocorr_diff _ _) as [a lag].
    left. simpl in Hr. now symmetry.
Qed.

Lemma grupo_ordenado (dados : Loader.DataFrame) (k : string)
    (grupo : Loader.DataFrame) :
  In (k, grupo) (Anomaly.groupby (Anomaly.sort_values dados)) ->
  In k (map Loader.CD_OPR dados)
  /\ Permutation grupo
       (filter (fun r => String.eqb (Loader.CD_OPR r) k) dados).
Proof.
  intros H. apply groupby_In in H. destruct H as [Hk ->]. split.
  - apply in_map_iff in Hk. destruct Hk as [r [<- Hr]].
    apply in_map. now apply (proj1 (sort_In _ _ _)) in Hr.
  - apply filter_Permutation, sort_Permutation.
Qed.

Lemma metricas_NoDup (dados : Loader.DataFrame) :
  NoDup (map Anomaly.CD_OPR (Anomaly.calcular_metricas_por_processo dados)).
Proof.
  unfold Anomaly.calcular_metricas_por_processo.
  pose proof (groupby_chaves_NoDup (Anomaly.sort_values dados)) as Hnd.
  induction (Anomaly.groupby (Anomaly.sort_values dados))
    as [|[k grupo] gs IH]; simpl; [constructor|].
  simpl in Hnd. inversion Hnd as [|? ? Hk Hgs]; subst.
  rewrite map_app, metricas_do_grupo_CD_OPR.
  destruct (List.length grupo <? 10)%nat; simpl; [now apply IH|].
  constructor; [|now apply IH].
  intros Hin. apply Hk. apply in_map_iff in Hin.
  destruct Hin as [r [<- Hr]]. apply in_flat_map in Hr.
  destruct Hr as [[k' g'] [Hg Hr]]. simpl in Hr.
  assert (E : In (Anomaly.CD_OPR r)
                 (map Anomaly.CD_OPR (Anomaly.metricas_do_grupo k' g')))
    by now apply in_map.
  rewrite metricas_do_grupo_CD_OPR in E.
  destruct (List.length g' <? 10)%nat; [contradiction|].
  destruct E as [<- | []]. apply in_map_iff. now exists (k', g').
Qed.

Lemma metricas_operador_iff (dados : Loader.DataFrame) (k : string) :
  In k (map Anomaly.CD_OPR (Anomaly.calcular_metricas_por_processo dados))
  <-> (10 <= List.length
               (filter (fun r => String.eqb (Loader.CD_OPR r) k) dados))%nat.
Proof.
  rewrite in_map_iff. split.
  - intros [r [<- Hr]]. apply metricas_In in Hr.
    destruct Hr as [grupo [Hg [Hlen _]]].
    apply grupo_ordenado in Hg. destruct Hg as [_ Hp].
    now rewrite <- (Permutation_length Hp).
  - intros Hlen.
    assert (Hk : In k (map Loader.CD_OPR (Anomaly.sort_values dados))).
    { destruct (filter (fun r => String.eqb (Loader.CD_OPR r) k) dados)
        as [|r t] eqn:E; [simpl in Hlen; lia|].
      assert (Hr : In r (filter
                           (fun r => String.eqb (Loader.CD_OPR r) k) dados))
        by (rewrite E; now left).
      apply filter_In in Hr. destruct Hr as [Hr Hrk].
      apply String.eqb_eq in Hrk. subst k.
      apply in_map. now apply sort_In. }
    pose proof (groupby_grupo _ k Hk) as Hg.
    set (grupo := filter (fun r => String.eqb (Loader.CD_OPR r) k)
                         (Anomaly.sort_values dados)) in *.
    exists (Anomaly.mkMetrica k
              (fst (Metrics.calcula_autocorr_diff (map Loader.QTD grupo)
                                                  Anomaly.nlags_padrao))
              (snd (Metrics.calcula_autocorr_diff (map Loader.QTD grupo)
                                                  Anomaly.nlags_padrao))
              (Metrics.calcula_cv (map Loader.QTD grupo)) None None).
    split; [reflexivity|].
    apply metricas_In. exists grupo. split; [exact Hg|].
    split; [|reflexivity].
    unfold grupo, Anomaly.sort_values. now rewrite sort_filter_length.
Qed.

(** [calcular_metricas_por_processo] makes one record for each operator
    that has at least 10 rows in the frame and none for the others: the
    operators of the records are pairwise distinct, and an operator has a
    record exactly when it has at least 10 rows. *)
Theorem calcular_metricas_operadores (dados : Loader.DataFrame) :
  NoDup (map Anomaly.CD_OPR (Anomaly.calcular_metricas_por_processo dados))
  /\ forall k,
       In k (map Anomaly.CD_OPR
                 (Anomaly.calcular_metricas_por_processo dados))
       <-> (10 <= List.length
                    (filter (fun r => String.eqb (Loader.CD_OPR r) k) dados))%nat.
Proof.
  split; [apply metricas_NoDup | apply metricas_operador_iff].
Qed.



Lemma NoDup_map_filter {A B : Type} (g : A -> B) (f : A -> bool)
    (l : list A) :
  NoDup (map g l) -> NoDup (map g (filter f l)).
Proof.
  induction l as [|x t IH]; simpl; intros H; [constructor|].
  inversion H as [|? ? Hx Ht]; subst.
  destruct (f x); simpl; [|now apply IH].
  constructor; [|now apply IH].
  intros Hin. apply Hx. apply in_map_iff in Hin.
  destruct Hin as [y [E Hy]]. apply filter_In in Hy.
  rewrite <- E. apply in_map. tauto.
Qed.

Lemma tabela_operadores (df : Anomaly.Metricas) (sigma : float) :
  Permutation
    (map Anomaly.CD_OPR (Anomaly.tabela (fst (Anomaly.detectar_anomalias
                                                df sigma))))
    (map Anomaly.CD_OPR (filter Anomaly.score_valido df)).
Proof.
  rewrite detectar_anomalias_retorno.
  pose proof (tabela_celulas (filter Anomaly.score_valido df) sigma) as H.
  apply (Permutation_map (fun c : string * float * Z * float =>
                            fst (fst (fst c)))) in H.
  rewrite !map_map in H. exact H.
Qed.


Lemma calcular_metricas_operadores_witness :
  ~ In "A"%string
       (map Anomaly.CD_OPR
            (Anomaly.calcular_metricas_por_processo
               [Loader.mkLinha 0 "A" 3; Loader.mkLinha 1 "A" 4])).
Proof.
  intros H.
  apply (proj2 (calcular_metricas_operadores
                  [Loader.mkLinha 0 "A" 3; Loader.mkLinha 1 "A" 4])) in H.
  simpl in H. lia.
Defined.


End PipelineFacts.

(** * Time order of the series *)

Section TimeOrder.
Import Loader.

Lemma ascii_compare_refl (a : ascii) : Ascii.compare a a = Eq.
Proof. unfold Ascii.compare. apply N.compare_refl. Qed.

Lemma ascii_compare_lt_trans (a b c : ascii) :
  Ascii.compare a b = Lt -> Ascii.compare b c = Lt ->
  Ascii.compare a c = Lt.
Proof.
  unfold Ascii.compare. rewrite !N.compare_lt_iff. lia.
Qed.

Lemma string_compare_trans (a b c : string) :
  String.compare a b <> Gt -> String.compare b c <> Gt ->
  String.compare a c <> Gt.
Proof.
  revert b c. induction a as [|x a IH]; intros [|y b] [|z c]; simpl;
    try congruence.
  destruct (Ascii.compare x y) eqn:Exy; [| |congruence];
    destruct (Ascii.compare y z) eqn:Eyz; try congruence.
  - apply Ascii.compare_eq_iff in Exy, Eyz. subst.
    rewrite ascii_compare_refl. apply IH.
  - apply Ascii.compare_eq_iff in Exy. subst. rewrite Eyz. congruence.
  - apply Ascii.compare_eq_iff in Eyz. subst. rewrite Exy. congruence.
  - rewrite (ascii_compare_lt_trans x y z Exy Eyz). congruence.
Qed.

Lemma string_leb_trans (a b c : string) :
  String.leb a b = true -> String.leb b c = true -> String.leb a c = true.
Proof.
  unfold String.leb. intros H1 H2.
  pose proof (string_compare_trans a b c) as H.
  destruct (String.compare a b); try discriminate;
    destruct (String.compare b c); try discriminate;
    destruct (String.compare a c); try reflexivity;
    exfalso; apply H; congruence.
Qed.

Lemma ordem_linha_total (a b : Linha) :
  Anomaly.ordem_linha a b = true \/ Anomaly.ordem_linha b a = true.
Proof.
  unfold Anomaly.ordem_linha. rewrite (String.eqb_sym (CD_OPR b)).
  destruct (String.eqb (CD_OPR a) (CD_OPR b)).
  - destruct (Z.le_ge_cases (MINUTO a) (MINUTO b)) as [H | H];
      [left | right]; now apply Z.leb_le.
  - apply String.leb_total.
Qed.

Lemma ordem_linha_trans (a b c : Linha) :
  Anomaly.ordem_linha a b = true -> Anomaly.ordem_linha b c = true ->
  Anomaly.ordem_linha a c = true.
Proof.
  unfold Anomaly.ordem_linha.
  destruct (String.eqb (CD_OPR a) (CD_OPR b)) eqn:Eab;
    destruct (String.eqb (CD_OPR b) (CD_OPR c)) eqn:Ebc;
    destruct (String.eqb (CD_OPR a) (CD_OPR c)) eqn:Eac;
    intros H1 H2;
    repeat match goal with
           | H : String.eqb _ _ = true |- _ => apply String.eqb_eq in H
           | H : String.eqb _ _ = false |- _ => apply String.eqb_neq in H
           end;
    try congruence.
  - apply Z.leb_le in H1, H2. apply Z.leb_le. lia.
  - exfalso. apply Eab. apply String.leb_antisym; [exact H1|].
    rewrite Eac. exact H2.
  - now apply (string_leb_trans _ (CD_OPR b)).
Qed.

Lemma sort_values_ordenado (dados : DataFrame) :
  StronglySorted (fun a b => Anomaly.ordem_linha a b = true)
                 (Anomaly.sort_values dados).
Proof.
  apply Sorted_StronglySorted.
  - intros a b c. apply ordem_linha_trans.
  - unfold Anomaly.sort_values.
    apply (sort_Sorted Anomaly.ordem_linha (fun _ => True)).
    + intros x y _ _. apply ordem_linha_total.
    + auto.
    + auto.
Qed.

Lemma StronglySorted_filter {A : Type} (R : A -> A -> Prop)
    (f : A -> bool) (l : list A) :
  StronglySorted R l -> StronglySorted R (filter f l).
Proof.
  induction 1 as [|a l Hl IH Ha]; simpl; [constructor|].
  destruct (f a); [|exact IH]. constructor; [exact IH|].
  apply Forall_forall. intros x Hx. apply filter_In in Hx.
  destruct Hx as [Hx _]. revert x Hx. now apply Forall_forall.
Qed.

Lemma grupo_em_ordem (k : string) (l : DataFrame) :
  StronglySorted (fun a b => Anomaly.ordem_linha a b = true) l ->
  (forall r, In r l -> CD_OPR r = k) ->
  StronglySorted (fun a b => MINUTO a <= MINUTO b) l.
Proof.
  induction 1 as [|a l Hl IH Ha]; intros Hk; [constructor|].
  constructor.
  - apply IH. intros r Hr. apply Hk. now right.
  - apply Forall_forall. intros b Hb.
    pose proof (proj1 (Forall_forall _ _) Ha b Hb) as H.
    unfold Anomaly.ordem_linha in H.
    rewrite (Hk a (or_introl eq_refl)), (Hk b (or_intror Hb)) in H.
    rewrite String.eqb_refl in H. now apply Z.leb_le.
Qed.

(** The series of every operator is in time order: in each group of
    [calcular_metricas_por_processo] the timestamps never decrease. *)
Theorem series_em_ordem_temporal (dados : DataFrame) (k : string)
    (grupo : DataFrame) :
  In (k, grupo) (Anomaly.groupby (Anomaly.sort_values dados)) ->
  StronglySorted (fun a b => MINUTO a <= MINUTO b) grupo.
Proof.
  intros H. apply groupby_In in H. destruct H as [_ ->].
  apply (grupo_em_ordem k).
  - apply StronglySorted_filter, sort_values_ordenado.
  - intros r Hr. apply filter_In in Hr. destruct Hr as [_ Hr].
    now apply String.eqb_eq.
Qed.

Lemma series_em_ordem_temporal_witness :
  StronglySorted (fun a b => MINUTO a <= MINUTO b)
                 [mkLinha 0 "A" 3; mkLinha 2 "A" 1].
Proof.
  apply (series_em_ordem_temporal
           [mkLinha 2 "A" 1; mkLinha 1 "B" 4; mkLinha 0 "A" 3] "A").
  simpl. auto.
Defined.








End TimeOrder.

(** * The robust dispersion *)

Section MadClaims.
Import Float.
Local Open Scope R_scope.



End MadClaims.

(** * String operations *)

Section TextoFacts.
Import Texto.
Local Open Scope string_scope.

Lemma chars_app (a b : string) : list_ascii_of_string (a ++ b) = (list_ascii_of_string a ++ list_ascii_of_string b)%list.
Proof. induction a as [|c a IH]; simpl; [reflexivity | now rewrite IH]. Qed.

Lemma append_nil_r (a : string) : a ++ "" = a.
Proof. induction a as [|c a IH]; simpl; [reflexivity | now rewrite IH]. Qed.

Lemma append_assoc (a b c : string) : (a ++ b) ++ c = a ++ (b ++ c).
Proof. induction a as [|x a IH]; simpl; [reflexivity | now rewrite IH]. Qed.

Lemma rstrip_se_todos (p : ascii -> bool) (w : string) :
  (forall c, In c (list_ascii_of_string w) -> p c = true) -> rstrip_se p w = "".
Proof.
  induction w as [|c w IH]; intros H; simpl; [reflexivity|].
  rewrite IH by (intros x Hx; apply H; now right).
  now rewrite (H c (or_introl eq_refl)).
Qed.

Lemma rstrip_se_app (p : ascii -> bool) (b w : string) :
  (forall c, In c (list_ascii_of_string w) -> p c = true) ->
  rstrip_se p (b ++ w) = rstrip_se p b.
Proof.
  intros H. induction b as [|c b IH]; simpl.
  - now apply rstrip_se_todos.
  - now rewrite IH.
Qed.

Lemma rstrip_se_fim (p : ascii -> bool) (a : string) (c : ascii) :
  p c = false -> rstrip_se p (a ++ String c "") = a ++ String c "".
Proof.
  intros Hc. induction a as [|x a IH]; simpl.
  - now rewrite Hc.
  - rewrite IH. now destruct (a ++ String c "") eqn:E;
      [destruct a; discriminate|].
Qed.

Lemma rstrip_se_nenhum (p : ascii -> bool) (s : string) :
  (forall c, In c (list_ascii_of_string s) -> p c = false) -> rstrip_se p s = s.
Proof.
  induction s as [|c s IH]; intros H; simpl; [reflexivity|].
  rewrite IH by (intros x Hx; apply H; now right).
  destruct s; [now rewrite (H c (or_introl eq_refl)) | reflexivity].
Qed.

Lemma prefix_app (old rest : string) : String.prefix old (old ++ rest) = true.
Proof.
  induction old as [|c old IH]; simpl; [now destruct rest|].
  destruct (ascii_dec c c); [exact IH | congruence].
Qed.

Lemma prefix_chars (old s : string) (c : ascii) :
  String.prefix old s = true -> In c (list_ascii_of_string old) -> In c (list_ascii_of_string s).
Proof.
  revert s. induction old as [|x old IH]; intros s H Hc; [contradiction|].
  destruct s as [|y s]; [discriminate|]. simpl in H.
  destruct (ascii_dec x y) as [-> | _]; [|discriminate].
  destruct Hc as [<- | Hc]; [now left | right; now apply IH].
Qed.

Lemma remove_aux_salta (old a rest : string) :
  remove_aux old (String.length a) (a ++ rest) = remove_aux old 0 rest.
Proof. induction a as [|c a IH]; simpl; [reflexivity | exact IH]. Qed.

(** An occurrence at the start is removed. *)
Lemma remove_prefix (old rest : string) :
  old <> "" -> remove old (old ++ rest) = remove old rest.
Proof.
  intros Hne. destruct old as [|c old]; [congruence|].
  unfold remove.
  change (String c old ++ rest) with (String c (old ++ rest)).
  cbn [remove_aux].
  assert (E : String.prefix (String c old) (String c (old ++ rest)) = true)
    by exact (prefix_app (String c old) rest).
  rewrite E.
  replace (String.length (String c old) - 1)%nat with (String.length old)
    by (simpl; lia).
  apply remove_aux_salta.
Qed.

(** Nothing is removed from a string that lacks a character of [old]. *)
Lemma remove_ausente (old s : string) (c : ascii) :
  In c (list_ascii_of_string old) -> ~ In c (list_ascii_of_string s) -> remove old s = s.
Proof.
  intros Hc. unfold remove. induction s as [|x s IH]; intros Hs;
    [reflexivity|].
  cbn [remove_aux].
  destruct (String.prefix old (String x s)) eqn:E.
  - exfalso. apply Hs. now apply (prefix_chars old).
  - f_equal. apply IH. intros H. apply Hs. now right.
Qed.

(** No occurrence starts in a part that lacks the first character of
    [old]. *)
Lemma remove_app (c0 : ascii) (old' a b : string) :
  ~ In c0 (list_ascii_of_string a) ->
  remove (String c0 old') (a ++ b) = a ++ remove (String c0 old') b.
Proof.
  unfold remove. induction a as [|x a IH]; intros Ha; [reflexivity|].
  change (String x a ++ b) with (String x (a ++ b)).
  cbn [remove_aux String.prefix].
  destruct (ascii_dec c0 x) as [-> | Hx].
  - exfalso. apply Ha. now left.
  - simpl. f_equal. apply IH. intros H. apply Ha. now right.
Qed.

Lemma split_nao_vazio (sep : ascii) (s : string) : split sep s <> [].
Proof.
  induction s as [|c s IH]; simpl; [discriminate|].
  destruct (Ascii.eqb c sep); [discriminate|].
  destruct (split sep s); [congruence | discriminate].
Qed.

(** Characters other than the separator go to the first piece. *)
Lemma split_app (sep : ascii) (a s : string) :
  ~ In sep (list_ascii_of_string a) ->
  split sep (a ++ s)
  = (a ++ hd "" (split sep s)) :: tl (split sep s).
Proof.
  induction a as [|x a IH]; intros Ha.
  - simpl. pose proof (split_nao_vazio sep s).
    destruct (split sep s); [congruence | reflexivity].
  - change (String x a ++ s) with (String x (a ++ s)).
    cbn [split].
    assert (Hx : Ascii.eqb x sep = false).
    { apply Ascii.eqb_neq. intros ->. apply Ha. now left. }
    rewrite Hx, IH by (intros H; apply Ha; now right).
    reflexivity.
Qed.

Lemma split_sep (sep : ascii) (s : string) :
  split sep (String sep s) = "" :: split sep s.
Proof. simpl. now rewrite Ascii.eqb_refl. Qed.

Lemma split_unico (sep : ascii) (a : string) :
  ~ In sep (list_ascii_of_string a) -> split sep a = [a].
Proof.
  intros Ha. rewrite <- (append_nil_r a) at 1.
  rewrite (split_app sep a "" Ha). simpl. now rewrite append_nil_r.
Qed.

End TextoFacts.

(** * Reading the export lines *)

Section LeituraFacts.
Import Texto Leitura.
Local Open Scope string_scope.

Lemma In_existsb (c : ascii) (l : list ascii) :
  existsb (Ascii.eqb c) l = true -> In c l.
Proof.
  intros H. apply existsb_exists in H. destruct H as [x [Hx E]].
  apply Ascii.eqb_eq in E. now subst.
Qed.

Lemma nao_In_um (c x : ascii) : c <> x -> ~ In c [x].
Proof. intros H [E | []]. congruence. Qed.

Lemma campo_sem (s : string) (c : ascii) :
  campo_simples s -> (c = "," \/ c = "(" \/ c = ")")%char ->
  ~ In c (list_ascii_of_string s).
Proof.
  intros Hs Hc Hin. destruct (Hs c Hin) as [A [B C]].
  destruct Hc as [-> | [-> | ->]]; congruence.
Qed.

Lemma formata_fim (ts op q : string) :
  formata ts op q
  = (prefixo ++ "'" ++ ts ++ "'," ++ op ++ "," ++ q ++ ")") ++ String ";" "".
Proof.
  unfold formata. rewrite !append_assoc. reflexivity.
Qed.

Lemma strip_formata (ts op q w : string) :
  em_branco w -> strip (formata ts op q ++ w) = formata ts op q.
Proof.
  intros Hw. unfold strip.
  assert (E : lstrip_se is_space (formata ts op q ++ w)
              = formata ts op q ++ w) by reflexivity.
  rewrite E, (rstrip_se_app is_space _ w Hw).
  rewrite formata_fim. now apply rstrip_se_fim.
Qed.

Lemma resto_sem (c : ascii) (ts op q fim : string) :
  c <> "'"%char -> c <> ","%char ->
  ~ In c (list_ascii_of_string ts) ->
  ~ In c (list_ascii_of_string op) ->
  ~ In c (list_ascii_of_string q) ->
  ~ In c (list_ascii_of_string fim) ->
  ~ In c (list_ascii_of_string
            ("'" ++ ts ++ "'," ++ op ++ "," ++ q ++ fim)).
Proof.
  intros H1 H2 Hts Hop Hq Hf.
  rewrite !chars_app. simpl. rewrite !in_app_iff. simpl.
  rewrite !in_app_iff. simpl. rewrite !in_app_iff. unfold not in *.
  intros [E | [H | [E | [E | [H | [E | [H | H]]]]]]];
    try (symmetry in E); auto.
Qed.

Lemma campo_sem_parenteses (s : string) :
  campo_simples s -> sem_parenteses s.
Proof. intros H c Hc. destruct (H c Hc) as [_ [A B]]. now split. Qed.

Lemma parenteses_sem (s : string) (c : ascii) :
  sem_parenteses s -> (c = "(" \/ c = ")")%char ->
  ~ In c (list_ascii_of_string s).
Proof.
  intros Hs Hc Hin. destruct (Hs c Hin) as [A B].
  destruct Hc as [-> | ->]; congruence.
Qed.

(** The cleaning of lines 42-43 leaves the three fields and their commas. *)
Lemma limpa_formata (ts op q w : string) :
  sem_parenteses ts -> sem_parenteses op -> sem_parenteses q ->
  em_branco w ->
  remove ");" (remove prefixo (strip (formata ts op q ++ w)))
  = "'" ++ ts ++ "'," ++ op ++ "," ++ q.
Proof.
  intros Hts Hop Hq Hw.
  rewrite (strip_formata ts op q w Hw).
  unfold formata.
  rewrite remove_prefix by discriminate.
  rewrite (remove_ausente prefixo _ "("%char).
  2:{ apply In_existsb. reflexivity. }
  2:{ apply resto_sem; try discriminate;
        try (apply parenteses_sem; [assumption | auto]).
      simpl. intros [H | [H | []]]; discriminate. }
  rewrite (remove_app ")" ";" "'") by (apply nao_In_um; discriminate).
  rewrite (remove_app ")" ";" ts) by (apply parenteses_sem; auto).
  rewrite (remove_app ")" ";" "',")
    by (simpl; intros [H | [H | []]]; discriminate).
  rewrite (remove_app ")" ";" op) by (apply parenteses_sem; auto).
  rewrite (remove_app ")" ";" ",") by (apply nao_In_um; discriminate).
  rewrite (remove_app ")" ";" q) by (apply parenteses_sem; auto).
  change (remove ");" ");") with "".
  now rewrite append_nil_r.
Qed.

(** A piece without separator, followed by a separator. *)
Lemma split_campo (sep : ascii) (a s : string) :
  ~ In sep (list_ascii_of_string a) ->
  split sep (a ++ String sep s) = a :: split sep s.
Proof.
  intros Ha. rewrite (split_app sep a _ Ha), split_sep. simpl.
  now rewrite append_nil_r.
Qed.

Lemma aspas_sem_virgula (ts : string) :
  campo_simples ts ->
  ~ In ","%char (list_ascii_of_string ("'" ++ ts ++ "'")).
Proof.
  intros Hts. rewrite !chars_app, !in_app_iff. simpl.
  intros [[E | []] | [H | [E | []]]]; try discriminate.
  revert H. apply campo_sem; auto.
Qed.

Lemma campos_assoc (ts r : string) :
  "'" ++ ts ++ "'," ++ r = ("'" ++ ts ++ "'") ++ String "," r.
Proof. now rewrite !append_assoc. Qed.

Lemma split_campos (ts op q : string) :
  campo_simples ts -> campo_simples op -> campo_simples q ->
  split "," ("'" ++ ts ++ "'," ++ op ++ "," ++ q) = ["'" ++ ts ++ "'"; op; q].
Proof.
  intros Hts Hop Hq.
  rewrite campos_assoc, (split_campo "," _ _ (aspas_sem_virgula ts Hts)).
  change (op ++ "," ++ q) with (op ++ String "," q).
  rewrite split_campo by (apply campo_sem; auto).
  rewrite split_unico by (apply campo_sem; auto).
  reflexivity.
Qed.

Lemma processa_linha_campos (ts op q w : string) :
  campo_simples ts -> campo_simples op -> campo_simples q ->
  em_branco w ->
  processa_linha (formata ts op q ++ w) = Some ["'" ++ ts ++ "'"; op; q].
Proof.
  intros Hts Hop Hq Hw. unfold processa_linha.
  rewrite limpa_formata, split_campos
    by (assumption || now apply campo_sem_parenteses).
  reflexivity.
Qed.

(** A line written in the export format, whatever whitespace ends it,
    is read back as its three fields: the quoted timestamp, the operator
    and the count, provided no field holds a comma or a parenthesis. *)
Theorem processa_linha_formata (ts op q w : string) :
  campo_simples ts -> campo_simples op -> campo_simples q ->
  em_branco w ->
  processa_linha (formata ts op q ++ w) = Some ["'" ++ ts ++ "'"; op; q].
Proof. exact (processa_linha_campos ts op q w). Qed.

Lemma processa_linha_formata_witness :
  processa_linha (formata "2024-01-01 00:00" "A" "5" ++ String "010" "")
  = Some ["'2024-01-01 00:00'"; "A"; "5"].
Proof.
  apply (processa_linha_formata "2024-01-01 00:00" "A" "5" (String "010" ""));
    intros c Hc; simpl in Hc;
    repeat (destruct Hc as [<- | Hc];
            [first [reflexivity | repeat split; discriminate] |]);
    contradiction.
Defined.

(** The number of pieces is the number of separators plus one. *)
Lemma split_length (sep : ascii) (s : string) :
  List.length (split sep s)
  = S (count_occ ascii_dec (list_ascii_of_string s) sep).
Proof.
  induction s as [|c s IH]; [reflexivity|].
  cbn [split list_ascii_of_string count_occ].
  destruct (Ascii.eqb_spec c sep) as [-> | Hc].
  - destruct (ascii_dec sep sep); [|congruence]. simpl. now rewrite IH.
  - destruct (ascii_dec c sep); [congruence|].
    rewrite <- IH. pose proof (split_nao_vazio sep s).
    destruct (split sep s); [congruence | reflexivity].
Qed.

(** A line of the export whose timestamp, operator or count holds a
    comma is dropped: it splits into more than three parts. *)
Theorem processa_linha_virgula (ts op q w : string) :
  sem_parenteses ts -> sem_parenteses op -> sem_parenteses q ->
  em_branco w ->
  In ","%char (list_ascii_of_string (ts ++ op ++ q)) ->
  processa_linha (formata ts op q ++ w) = None.
Proof.
  intros Hts Hop Hq Hw Hv. unfold processa_linha.
  rewrite limpa_formata by assumption.
  rewrite split_length.
  apply (count_occ_In ascii_dec) in Hv.
  rewrite !chars_app, !count_occ_app in Hv.
  rewrite !chars_app, !count_occ_app. cbn [list_ascii_of_string count_occ].
  destruct (ascii_dec "'" ","); [discriminate|].
  destruct (ascii_dec "," ","); [|congruence].
  match goal with
  | |- (if (?n =? 3)%nat then _ else _) = None =>
      destruct (Nat.eqb_spec n 3) as [E | _]; [lia | reflexivity]
  end.
Qed.

Lemma processa_linha_virgula_witness :
  processa_linha (formata "2024-01-01 00:00" "A,B" "5" ++ String "010" "")
  = None.
Proof.
  apply (processa_linha_virgula "2024-01-01 00:00" "A,B" "5"
           (String "010" ""));
    try (intros c Hc; simpl in Hc;
         repeat (destruct Hc as [<- | Hc];
                 [first [reflexivity | repeat split; discriminate] |]);
         contradiction).
  simpl. tauto.
Defined.

(** [strip("'")] takes the quotes off a quoted field. *)
Lemma strip_aspas (ts : string) :
  sem_aspas ts -> strip_chars "'" ("'" ++ ts ++ "'") = ts.
Proof.
  intros Hts. unfold strip_chars.
  set (p := fun c => existsb (Ascii.eqb c) (list_ascii_of_string "'")).
  assert (Hp : forall c, In c (list_ascii_of_string ts) -> p c = false).
  { intros c Hc. unfold p. simpl. rewrite orb_false_r.
    apply Ascii.eqb_neq. now apply Hts. }
  assert (Hq : forall c, In c (list_ascii_of_string "'") -> p c = true).
  { intros c [<- | []]. reflexivity. }
  change ("'" ++ ts ++ "'") with (String "'" (ts ++ "'")).
  cbn [lstrip_se].
  replace (p "'"%char) with true by reflexivity.
  destruct ts as [|c t]; [reflexivity|].
  change (String c t ++ "'") with (String c (t ++ "'")).
  cbn [lstrip_se]. rewrite (Hp c (or_introl eq_refl)).
  change (String c (t ++ "'")) with (String c t ++ "'").
  rewrite (rstrip_se_app p _ "'" Hq).
  now apply rstrip_se_nenhum.
Qed.

Section Conversoes.
Variable to_datetime : string -> option Z.
Variable to_int : string -> option Z.

Lemma processa_registros (regs : list Registro) :
  Forall bem_formado regs ->
  processa (map linha_de regs)
  = map (fun r => ["'" ++ ts r ++ "'"; op r; qtd r]) regs.
Proof.
  induction 1 as [|r regs Hr _ IH]; [reflexivity|].
  destruct Hr as [H1 [_ [H2 [H3 H4]]]].
  cbn [map processa]. unfold linha_de at 1.
  now rewrite processa_linha_campos, IH.
Qed.

Lemma converte_registros (regs : list Registro) (df : Loader.DataFrame) :
  Forall bem_formado regs ->
  Forall2 (lido to_datetime to_int) regs df ->
  converte to_datetime to_int
           (map (fun r => ["'" ++ ts r ++ "'"; op r; qtd r]) regs)
  = Some df.
Proof.
  intros Hb H. induction H as [|r l regs df [Hm [Hq Ho]] _ IH];
    [reflexivity|].
  inversion Hb as [|? ? Hr Hb']; subst.
  destruct Hr as [_ [Ha _]].
  cbn [map converte converte_linha].
  rewrite (strip_aspas _ Ha), Hm, Hq, (IH Hb'), Ho.
  now destruct l.
Qed.

(** Reading back an export. When the lines of the file that start
    with the marker are the export lines of a list of records, each with
    fields free of commas, parentheses and (for the timestamp) quotes, and
    the conversions succeed on every record, the loader returns what the
    densification gives on the typed rows of the records, in the order of
    the file; the other lines of the file are ignored. *)
Theorem extrair_dados_arquivo_formatado (linhas : list string)
    (regs : list Registro) (df : Loader.DataFrame) :
  filter (startswith marcador) linhas = map linha_de regs ->
  Forall bem_formado regs ->
  Forall2 (lido to_datetime to_int) regs df ->
  extrair_dados_arquivo to_datetime to_int (Some linhas)
  = Loader.extrair_dados df.
Proof.
  intros Hf Hb Hl. unfold extrair_dados_arquivo. rewrite Hf.
  pose proof (processa_registros regs Hb) as Hp.
  pose proof (converte_registros regs df Hb Hl) as Hc.
  destruct Hl as [|r l regs df Hr Hl].
  - reflexivity.
  - rewrite Hp, Hc. reflexivity.
Qed.

Lemma converte_falha (linhas : list (list string)) (partes : list string) :
  In partes linhas -> converte_linha to_datetime to_int partes = None ->
  converte to_datetime to_int linhas = None.
Proof.
  induction linhas as [|p t IH]; intros Hin Hn; [contradiction|].
  cbn [converte]. destruct Hin as [-> | Hin].
  - now rewrite Hn.
  - rewrite (IH Hin Hn). now destruct (converte_linha to_datetime to_int p).
Qed.

(** One value that does not convert empties the whole result. If a
    selected line splits into three parts and its timestamp or its count is
    refused by the conversion, the loader returns the empty frame, whatever
    the other lines hold. *)
Theorem extrair_dados_arquivo_falha_conversao (linhas : list string)
    (partes : list string) :
  In partes (processa (filter (startswith marcador) linhas)) ->
  converte_linha to_datetime to_int partes = None ->
  extrair_dados_arquivo to_datetime to_int (Some linhas) = Ok [].
Proof.
  intros Hin Hn. unfold extrair_dados_arquivo.
  destruct (filter (startswith marcador) linhas) as [|l0 ls] eqn:Ef;
    [reflexivity|].
  destruct (processa (l0 :: ls)) as [|p0 ps] eqn:Ep; [reflexivity|].
  now rewrite (converte_falha _ _ Hin Hn).
Qed.

End Conversoes.

Lemma extrair_dados_arquivo_formatado_witness :
  extrair_dados_arquivo
    (fun s => if String.eqb s "2024-01-01 00:00" then Some 0%Z
              else if String.eqb s "2024-01-01 00:02" then Some 2%Z
              else None)
    (fun s => if String.eqb s "3" then Some 3%Z
              else if String.eqb s "1" then Some 1%Z
              else None)
    (Some ["REM export of the counts";
           linha_de (mkRegistro "2024-01-01 00:00" "A" "3" (String "010" ""));
           "";
           linha_de (mkRegistro "2024-01-01 00:02" "A" "1" "")])
  = Loader.extrair_dados [Loader.mkLinha 0 "A" 3; Loader.mkLinha 2 "A" 1].
Proof.
  apply (extrair_dados_arquivo_formatado _ _ _
           [mkRegistro "2024-01-01 00:00" "A" "3" (String "010" "");
            mkRegistro "2024-01-01 00:02" "A" "1" ""]).
  - reflexivity.
  - repeat (apply Forall_cons || apply Forall_nil);
      refine (conj _ (conj _ (conj _ (conj _ _))));
      intros c Hc; simpl in Hc;
      repeat (destruct Hc as [<- | Hc];
              [first [reflexivity | repeat split; discriminate] |]);
      contradiction.
  - repeat (apply Forall2_cons || apply Forall2_nil);
      repeat split; reflexivity.
Defined.

Lemma extrair_dados_arquivo_falha_conversao_witness :
  extrair_dados_arquivo
    (fun s => if String.eqb s "2024-01-01 00:00" then Some 0%Z else None)
    (fun s => if String.eqb s "3" then Some 3%Z else None)
    (Some [linha_de (mkRegistro "2024-01-01 00:00" "A" "3" (String "010" ""));
           linha_de (mkRegistro "2024-01-01 00:00" "B" "x" (String "010" ""))])
  = Ok [].
Proof.
  apply (extrair_dados_arquivo_falha_conversao _ _ _
           ["'2024-01-01 00:00'"; "B"; "x"]).
  - right. left. reflexivity.
  - reflexivity.
Defined.

End LeituraFacts.

(** * The main script *)

Section PrincipalFacts.
Import Loader Float Principal.

Lemma filter_prod_snd {A : Type} (f : string -> bool) (ms : list A)
    (ops : list string) :
  List.length (filter (fun c => f (snd c)) (list_prod ms ops))
  = (List.length ms * List.length (filter f ops))%nat.
Proof.
  induction ms as [|m ms IH]; [reflexivity|].
  cbn [list_prod]. rewrite filter_app, length_app, IH.
  rewrite (filter_map_comm (fun c : A * string => f (snd c))
                           (fun y => (m, y))).
  rewrite length_map. simpl. reflexivity.
Qed.

Lemma grupo_grade_length (df : DataFrame) (k : string) :
  List.length (filter (fun r => String.eqb (CD_OPR r) k) (grade df))
  = (Z.to_nat (serie_max (map MINUTO df) - serie_min (map MINUTO df) + 1)
     * List.length (filter (fun o => String.eqb o k)
                           (unique (map CD_OPR df))))%nat.
Proof.
  unfold grade, from_product.
  rewrite (filter_map_comm (fun r => String.eqb (CD_OPR r) k)). cbn [CD_OPR].
  rewrite length_map.
  rewrite (filter_prod_snd (fun o => String.eqb o k)).
  now rewrite date_range_length.
Qed.

(** The operators that get metrics from a densified frame: all of them when
    the span is of 10 minutes or more, none otherwise. *)
Lemma metricas_da_grade (df : DataFrame) (k : string) :
  In k (map Anomaly.CD_OPR (Anomaly.calcular_metricas_por_processo (grade df)))
  <-> In k (map CD_OPR df)
      /\ 10 <= serie_max (map MINUTO df) - serie_min (map MINUTO df) + 1.
Proof.
  rewrite metricas_operador_iff, grupo_grade_length.
  destruct (in_dec string_dec k (map CD_OPR df)) as [Hk | Hk].
  - rewrite (filter_eqb_NoDup k (unique (map CD_OPR df)))
      by (apply unique_NoDup || now apply unique_In).
    split; [intros H; split; [exact Hk | lia] | intros [_ H]; lia].
  - rewrite (filter_eqb_notin k (unique (map CD_OPR df)))
      by (intros H; apply Hk; now apply (proj1 (unique_In _ _))).
    simpl. split; [lia | intros [H _]; contradiction].
Qed.


Lemma grade_contem (df : DataFrame) (r : Linha) :
  NoDup (map chave df) -> In r df -> In r (grade df).
Proof.
  intros Hnd Hr. destruct r as [m op q]. apply grade_In.
  assert (Hne : map MINUTO df <> [])
    by (destruct df; [contradiction | discriminate]).
  destruct (serie_min_spec _ Hne) as [_ Hmin].
  destruct (serie_max_spec _ Hne) as [_ Hmax].
  assert (Hm : In m (map MINUTO df)).
  { apply in_map_iff. now exists (mkLinha m op q). }
  split; [split; [now apply Hmin | now apply Hmax]|].
  split.
  - apply in_map_iff. now exists (mkLinha m op q).
  - rewrite (get_loc_Some (m, op) q); [reflexivity | |].
    + now rewrite set_index_keys.
    + now apply (set_index_In df (mkLinha m op q)).
Qed.

Lemma sem_validos_retorno (df : Anomaly.Metricas) (sigma : float) :
  filter Anomaly.score_valido df = [] ->
  fst (Anomaly.detectar_anomalias df sigma)
  = Anomaly.mkRetorno [] NaN NaN NaN.
Proof.
  intros H. rewrite detectar_anomalias_retorno, H. reflexivity.
Qed.

Lemma tabela_vazia_iff (df : Anomaly.Metricas) (sigma : float) :
  Anomaly.tabela (fst (Anomaly.detectar_anomalias df sigma)) = []
  <-> filter Anomaly.score_valido df = [].
Proof.
  split; intros H.
  - pose proof (tabela_operadores df sigma) as Hp. rewrite H in Hp.
    apply Permutation_nil in Hp.
    now destruct (filter Anomaly.score_valido df).
  - now rewrite (sem_validos_retorno df sigma H).
Qed.

(** The outcome of [analisar] in terms of the table of the detector. *)
Lemma analisar_casos (dados : DataFrame) :
  dados <> [] ->
  let m := Anomaly.calcular_metricas_por_processo dados in
  analisar dados
  = match m with
    | [] => SemMetricas
    | _ :: _ =>
        match filter Anomaly.score_valido m with
        | [] => FalhaDeteccao
        | _ :: _ => Salvo (fst (Anomaly.detectar_anomalias m (Fin 3%R)))
        end
    end.
Proof.
  intros Hne m. unfold analisar. destruct dados as [|r0 t]; [congruence|].
  fold m. destruct m as [|x xs] eqn:Em; [reflexivity|].
  rewrite <- Em.
  destruct (filter Anomaly.score_valido m) as [|y ys] eqn:Ef.
  - now rewrite (sem_validos_retorno m _ Ef).
  - destruct (Anomaly.tabela (fst (Anomaly.detectar_anomalias m (Fin 3%R))))
      eqn:Et; [|reflexivity].
    apply tabela_vazia_iff in Et. congruence.
Qed.



(** [main] saves only a table that has rows, and then the median and
    the MAD of the scores are finite numbers, the MAD not negative: a run
    that reaches the saving never writes an empty table nor statistics that
    are NaN. *)
Theorem main_salvo (df : DataFrame) :
  match main df with
  | Ok (Salvo ret) =>
      Anomaly.tabela ret <> []
      /\ exists m d, Anomaly.mediana ret = Fin m
                     /\ Anomaly.mad ret = Fin d /\ (0 <= d)%R
  | _ => True
  end.
Proof.
  unfold main. destruct (extrair_dados df) as [dados|e]; [|exact I].
  destruct dados as [|r0 t]; [exact I|].
  rewrite analisar_casos by discriminate. cbv zeta.
  destruct (Anomaly.calcular_metricas_por_processo (r0 :: t))
    as [|x xs] eqn:Em; [exact I|].
  rewrite <- Em.
  destruct (filter Anomaly.score_valido
              (Anomaly.calcular_metricas_por_processo (r0 :: t)))
    as [|y ys] eqn:Ef; [exact I|].
  split.
  - intros Et. apply tabela_vazia_iff in Et. congruence.
  - destruct (retorno_finito (fun _ => True)
                (Anomaly.calcular_metricas_por_processo (r0 :: t)) (Fin 3%R))
      as [m [d [H1 [_ [H2 H3]]]]].
    + congruence.
    + intros r Hr Hv. destruct (score_valido_Fin r Hv) as [a [b [_ [_ E]]]].
      eauto.
    + auto.
    + now exists m, d.
Qed.

End PrincipalFacts.

(** * The ACF script *)

Section AcfFacts.
Import Loader Float Acf.

Lemma sort_minuto_ordenado (dados : DataFrame) :
  StronglySorted (fun a b => MINUTO a <= MINUTO b) (sort_minuto dados).
Proof.
  apply Sorted_StronglySorted.
  - intros a b c. lia.
  - unfold sort_minuto.
    apply (sort_Sorted (fun a b => MINUTO a <=? MINUTO b) (fun _ => True)).
    + intros x y _ _. rewrite !Z.leb_le. lia.
    + intros x y _ _. now rewrite Z.leb_le.
    + auto.
Qed.

Lemma le_NoDup_lt_linhas (l : DataFrame) :
  StronglySorted (fun a b => MINUTO a <= MINUTO b) l ->
  NoDup (map MINUTO l) ->
  StronglySorted (fun a b => MINUTO a < MINUTO b) l.
Proof.
  induction 1 as [|a t Ht IH Ha]; intros Hnd; [constructor|].
  simpl in Hnd. inversion Hnd as [|? ? Hn Hd]; subst.
  constructor; [now apply IH|].
  apply Forall_forall. intros x Hx.
  pose proof (proj1 (Forall_forall _ _) Ha x Hx) as Hle. simpl in Hle.
  assert (MINUTO a <> MINUTO x).
  { intros E. apply Hn. rewrite E. now apply in_map. }
  lia.
Qed.

(** A frame has one ordering by strictly increasing minute. *)
Lemma ordenada_unica_linhas (l1 l2 : DataFrame) :
  StronglySorted (fun a b => MINUTO a < MINUTO b) l1 ->
  StronglySorted (fun a b => MINUTO a < MINUTO b) l2 ->
  (forall x, In x l1 <-> In x l2) -> l1 = l2.
Proof.
  intros H1. revert l2. induction H1 as [|a t1 Ht1 IH Ha]; intros l2 H2 He.
  - destruct l2 as [|b t2]; [reflexivity|].
    exfalso. apply (proj2 (He b)). now left.
  - destruct H2 as [|b t2 Ht2 Hb].
    + exfalso. apply (proj1 (He a)). now left.
    + pose proof (proj1 (Forall_forall _ _) Ha) as Ha'.
      pose proof (proj1 (Forall_forall _ _) Hb) as Hb'.
      assert (E : a = b).
      { destruct (proj1 (He a) (or_introl eq_refl)) as [E | Hin]; [auto|].
        destruct (proj2 (He b) (or_introl eq_refl)) as [E | Hin']; [auto|].
        specialize (Ha' b Hin'). specialize (Hb' a Hin). cbv beta in *. lia. }
      subst b. f_equal. apply IH; [exact Ht2|].
      intros x. split; intros Hx.
      * destruct (proj1 (He x) (or_intror Hx)) as [E | Hin]; [|exact Hin].
        specialize (Ha' x Hx). subst x. cbv beta in *. lia.
      * destruct (proj2 (He x) (or_intror Hx)) as [E | Hin]; [|exact Hin].
        specialize (Hb' x Hx). subst x. cbv beta in *. lia.
Qed.

Lemma grupo_minutos_NoDup (df : DataFrame) (k : string) (l : DataFrame) :
  Permutation l (filter (fun r => String.eqb (CD_OPR r) k) (grade df)) ->
  NoDup (map MINUTO l).
Proof.
  intros Hp. apply (NoDup_map_inv (fun m => (m, k))). rewrite map_map.
  assert (E : map (fun r => (MINUTO r, k)) l = map chave l).
  { apply map_ext_in. intros r Hr.
    apply (Permutation_in _ Hp) in Hr. apply filter_In in Hr.
    destruct Hr as [_ Hr]. apply String.eqb_eq in Hr. now rewrite <- Hr. }
  rewrite E.
  apply (Permutation_NoDup (Permutation_map chave (Permutation_sym Hp))).
  apply NoDup_map_filter, grade_chaves_NoDup.
Qed.

(** Selecting an operator and sorting by minute gives the group that
    [calcular_metricas_por_processo] builds for it. *)
Lemma serie_do_operador (df : DataFrame) (k : string) :
  sort_minuto (filter (fun r => String.eqb (CD_OPR r) k) (grade df))
  = filter (fun r => String.eqb (CD_OPR r) k)
           (Anomaly.sort_values (grade df)).
Proof.
  assert (P1 : Permutation
                 (sort_minuto
                    (filter (fun r => String.eqb (CD_OPR r) k) (grade df)))
                 (filter (fun r => String.eqb (CD_OPR r) k) (grade df)))
    by apply sort_Permutation.
  assert (P2 : Permutation
                 (filter (fun r => String.eqb (CD_OPR r) k)
                         (Anomaly.sort_values (grade df)))
                 (filter (fun r => String.eqb (CD_OPR r) k) (grade df)))
    by apply filter_Permutation, sort_Permutation.
  apply ordenada_unica_linhas.
  - apply le_NoDup_lt_linhas; [apply sort_minuto_ordenado|].
    now apply (grupo_minutos_NoDup df k).
  - apply le_NoDup_lt_linhas; [|now apply (grupo_minutos_NoDup df k)].
    apply (grupo_em_ordem k).
    + apply StronglySorted_filter, sort_values_ordenado.
    + intros r Hr. apply filter_In in Hr. destruct Hr as [_ Hr].
      now apply String.eqb_eq.
  - intros x. split; intros Hx.
    + apply (Permutation_in _ (Permutation_sym P2)).
      now apply (Permutation_in _ P1).
    + apply (Permutation_in _ (Permutation_sym P1)).
      now apply (Permutation_in _ P2).
Qed.

(** The ACF script and the metric table look at the same series: for an
    operator of the metric table of a loaded frame, the script run with the
    number of lags of the table reports, for the differenced series,
    exactly the maximum and the lag of the table. *)
Theorem acf_mesma_serie (df g : DataFrame) (r : Anomaly.Metrica) :
  extrair_dados df = Ok g ->
  In r (Anomaly.calcular_metricas_por_processo g) ->
  exists original,
    analisar_acf_processo (Anomaly.CD_OPR r) g Anomaly.nlags_padrao
    = Relatorio original
                (Anomaly.autocorr_max_diff r, Anomaly.autocorr_lag r).
Proof.
  intros Hg Hr. apply extrair_dados_Ok in Hg. subst g.
  apply metricas_In in Hr. destruct Hr as [grupo [Hin [Hlen Er]]].
  apply groupby_In in Hin. destruct Hin as [_ Eg].
  rewrite <- serie_do_operador in Eg.
  set (k := Anomaly.CD_OPR r) in *.
  assert (Hl : List.length grupo
               = List.length
                   (filter (fun r => String.eqb (CD_OPR r) k) (grade df))).
  { rewrite Eg. apply sort_length. }
  unfold analisar_acf_processo.
  destruct (grade df) as [|r0 t] eqn:Egr; [simpl in Hl; lia|].
  rewrite <- Egr in *.
  destruct (filter (fun r => String.eqb (CD_OPR r) k) (grade df))
    as [|x xs] eqn:Ef; [simpl in Hl; lia|].
  rewrite <- Eg, length_map.
  destruct (Nat.ltb_spec (List.length grupo) 2) as [H | _]; [lia|].
  eexists. f_equal. rewrite Er. simpl.
  now destruct (Metrics.calcula_autocorr_diff (map QTD grupo)
                                              Anomaly.nlags_padrao).
Qed.

Lemma acf_mesma_serie_witness :
  exists r original,
    In r (Anomaly.calcular_metricas_por_processo
            (grade (map (fun i => mkLinha (Z.of_nat i) "B" (Z.of_nat i))
                        (seq 0 10))))
    /\ analisar_acf_processo (Anomaly.CD_OPR r)
         (grade (map (fun i => mkLinha (Z.of_nat i) "B" (Z.of_nat i))
                     (seq 0 10)))
         Anomaly.nlags_padrao
       = Relatorio original
                   (Anomaly.autocorr_max_diff r, Anomaly.autocorr_lag r).
Proof.
  set (df := map (fun i => mkLinha (Z.of_nat i) "B" (Z.of_nat i)) (seq 0 10)).
  assert (Hk : In "B"%string
                 (map Anomaly.CD_OPR
                    (Anomaly.calcular_metricas_por_processo (grade df)))).
  { apply metricas_da_grade. split; [left; reflexivity | vm_compute; discriminate]. }
  apply in_map_iff in Hk. destruct Hk as [r [_ Hr]].
  destruct (acf_mesma_serie df (grade df) r eq_refl Hr) as [o Ho].
  exists r, o. split; [exact Hr | exact Ho].
Defined.

(** The outcomes of the ACF script on a loaded frame: an operator that the
    file does not have gives no data; a file of a single minute gives a
    series too short; otherwise both maxima are reported, and the lag of the
    one of the series lies between 1 and the number of lags, capped by the
    length of the series minus one. *)
Theorem analisar_acf_decisao (df g : DataFrame) (k : string) (nlags : Z) :
  extrair_dados df = Ok g -> df <> [] -> 1 <= nlags ->
  let n := serie_max (map MINUTO df) - serie_min (map MINUTO df) + 1 in
  (~ In k (map CD_OPR df) -> analisar_acf_processo k g nlags = SemDados)
  /\ (In k (map CD_OPR df) -> n = 1 ->
      analisar_acf_processo k g nlags = SerieCurta)
  /\ (In k (map CD_OPR df) -> 2 <= n ->
      exists v lag d,
        analisar_acf_processo k g nlags = Relatorio (Some (v, lag)) d
        /\ 1 <= lag <= Z.min nlags (n - 1)).
Proof.
  intros Hg Hne Hnl n.
  pose proof (extrair_dados_Ok_NoDup df g Hg) as Hnd.
  apply extrair_dados_Ok in Hg. subst g.
  assert (Hgne : grade df <> []).
  { destruct df as [|r t]; [congruence|].
    intros E. pose proof (grade_contem (r :: t) r Hnd (or_introl eq_refl)) as H.
    rewrite E in H. contradiction. }
  pose proof (grupo_grade_length df k) as Hlen. fold n in Hlen.
  unfold analisar_acf_processo.
  destruct (grade df) as [|r0 t] eqn:Egr; [congruence|].
  rewrite <- Egr in *.
  split; [|split].
  - intros Hk.
    rewrite (filter_eqb_notin k (unique (map CD_OPR df))) in Hlen
      by (intros H; apply Hk; now apply (proj1 (unique_In _ _))).
    simpl in Hlen. rewrite Nat.mul_0_r in Hlen.
    now destruct (filter (fun r => String.eqb (CD_OPR r) k) (grade df)).
  - intros Hk Hn.
    rewrite (filter_eqb_NoDup k (unique (map CD_OPR df))) in Hlen
      by (apply unique_NoDup || now apply unique_In).
    destruct (filter (fun r => String.eqb (CD_OPR r) k) (grade df))
      as [|x xs] eqn:Ef; [simpl in Hlen; lia|].
    rewrite <- Ef in *. rewrite length_map.
    unfold sort_minuto. rewrite sort_length, Hlen.
    destruct (Nat.ltb_spec (Z.to_nat n * 1) 2) as [_ | H]; [reflexivity | lia].
  - intros Hk Hn.
    rewrite (filter_eqb_NoDup k (unique (map CD_OPR df))) in Hlen
      by (apply unique_NoDup || now apply unique_In).
    destruct (filter (fun r => String.eqb (CD_OPR r) k) (grade df))
      as [|x xs] eqn:Ef; [simpl in Hlen; lia|].
    rewrite <- Ef in *. rewrite length_map.
    unfold sort_minuto at 1. rewrite sort_length, Hlen.
    destruct (Nat.ltb_spec (Z.to_nat n * 1) 2) as [H | _]; [lia|].
    set (serie := map QTD (sort_minuto
                    (filter (fun r => String.eqb (CD_OPR r) k) (grade df)))).
    assert (Hs : Z.of_nat (List.length serie) = n).
    { unfold serie, sort_minuto. rewrite length_map, sort_length, Hlen. lia. }
    unfold acf_original.
    set (m := Z.min nlags (Z.of_nat (List.length serie) - 1)).
    assert (Hm : 1 <= m < Z.of_nat (List.length serie)) by (unfold m; lia).
    assert (La : List.length (Np.acf (Metrics.to_float serie) m)
                 = S (Z.to_nat m)).
    { apply acf_length. unfold Metrics.to_float. rewrite length_map. lia. }
    rewrite La.
    destruct (Nat.ltb_spec 1 (S (Z.to_nat m))) as [_ | H]; [|lia].
    do 3 eexists. split; [reflexivity|].
    assert (Lb : List.length
                   (Np.abs (Np.slice_from1 (Np.acf (Metrics.to_float serie) m)))
                 = Z.to_nat m).
    { unfold Np.abs, Np.slice_from1. rewrite length_map.
      destruct (Np.acf (Metrics.to_float serie) m); simpl in *; lia. }
    pose proof (argmax_bound
                  (Np.abs (Np.slice_from1 (Np.acf (Metrics.to_float serie) m))))
      as Hb.
    rewrite Lb in Hb.
    assert (Hlt : (Np.argmax
                     (Np.abs (Np.slice_from1
                                (Np.acf (Metrics.to_float serie) m)))
                   < Z.to_nat m)%nat).
    { apply Hb. intros E. rewrite E in Lb. simpl in Lb. lia. }
    rewrite <- Hs. fold m. lia.
Qed.

Lemma analisar_acf_decisao_witness :
  analisar_acf_processo "C"
    (grade [mkLinha 0 "A" 3; mkLinha 2 "A" 1; mkLinha 1 "B" 4]) nlags_acf
  = SemDados.
Proof.
  destruct (analisar_acf_decisao
              [mkLinha 0 "A" 3; mkLinha 2 "A" 1; mkLinha 1 "B" 4]
              (grade [mkLinha 0 "A" 3; mkLinha 2 "A" 1; mkLinha 1 "B" 4])
              "C" nlags_acf) as [H _].
  - reflexivity.
  - discriminate.
  - vm_compute. discriminate.
  - apply H. simpl. intros [E | [E | [E | []]]]; discriminate E.
Defined.

End AcfFacts.

(** * More lags *)

Section AutocorrLags.
Import Float.
Local Open Scope R_scope.




End AutocorrLags.

(** * The ACF script on a series that never changes *)

Section AcfConstante.
Import Loader Float Acf.









End AcfConstante.
